(** * InfoLM: information measures and the distribution aggregator

    A shallow embedding of [torchmetrics/functional/text/infolm.py].

    Numbers.  Python floats and the entries of torch tensors are modelled by
    [fval]: an exact real number, or one of the three special values of
    IEEE 754 arithmetic (plus infinity, minus infinity, NaN).  Operations on
    finite values are exact (no rounding, no overflow); the special values
    follow the IEEE rules, with the two signed zeros identified and a zero
    divisor taken as the positive zero.  Where a property depends on the
    rounding of the float type, the measures are embedded a second time in
    [Rounded], with a rounding after every operation.

    Tensors.  A tensor of rank n is a list nested n times; the outermost list
    is the batch axis. *)

From Stdlib Require Import Reals Lra List ZArith String Ascii Bool Lia.
Import ListNotations.

Set Implicit Arguments.

(* ================================================================= *)
(** ** Floating values *)

Module FVal.

Local Open Scope R_scope.

Inductive fval : Type :=
| Fin (r : R)
| PInf
| NInf
| NaN.

Definition is_finite (x : fval) : Prop :=
  match x with Fin _ => True | _ => False end.

Definition of_Z (z : Z) : fval := Fin (IZR z).

Definition of_bool (b : bool) : fval := Fin (if b then 1 else 0).

(** The sign of a real: [Gt] positive, [Eq] zero, [Lt] negative. *)
Definition Rsign (r : R) : comparison :=
  match total_order_T 0 r with
  | inleft (left _) => Gt
  | inleft (right _) => Eq
  | inright _ => Lt
  end.

(** [x == y] on floats: NaN is different from everything. *)
Definition eqb (x y : fval) : bool :=
  match x, y with
  | Fin a, Fin b => if Req_dec_T a b then true else false
  | PInf, PInf => true
  | NInf, NInf => true
  | _, _ => false
  end.

Definition neg (x : fval) : fval :=
  match x with
  | Fin a => Fin (- a)
  | PInf => NInf
  | NInf => PInf
  | NaN => NaN
  end.

Definition add (x y : fval) : fval :=
  match x, y with
  | NaN, _ | _, NaN => NaN
  | Fin a, Fin b => Fin (a + b)
  | PInf, NInf | NInf, PInf => NaN
  | PInf, _ | _, PInf => PInf
  | NInf, _ | _, NInf => NInf
  end.

Definition sub (x y : fval) : fval := add x (neg y).

(** An infinity of the given sign; a zero sign gives NaN. *)
Definition inf_of_sign (s : comparison) : fval :=
  match s with Gt => PInf | Lt => NInf | Eq => NaN end.

Definition sign_mul (s t : comparison) : comparison :=
  match s, t with
  | Eq, _ | _, Eq => Eq
  | Gt, Gt | Lt, Lt => Gt
  | _, _ => Lt
  end.

Definition sign (x : fval) : option comparison :=
  match x with
  | Fin a => Some (Rsign a)
  | PInf => Some Gt
  | NInf => Some Lt
  | NaN => None
  end.

Definition mul (x y : fval) : fval :=
  match x, y with
  | Fin a, Fin b => Fin (a * b)
  | NaN, _ | _, NaN => NaN
  | Fin a, PInf | PInf, Fin a => inf_of_sign (Rsign a)
  | Fin a, NInf | NInf, Fin a => inf_of_sign (sign_mul (Rsign a) Lt)
  | PInf, PInf | NInf, NInf => PInf
  | PInf, NInf | NInf, PInf => NInf
  end.

(** Division: a finite value over zero is an infinity of the sign of the
    numerator, and zero over zero is NaN. *)
Definition div (x y : fval) : fval :=
  match x, y with
  | NaN, _ | _, NaN => NaN
  | Fin a, Fin b =>
      if Req_dec_T b 0 then inf_of_sign (Rsign a) else Fin (a / b)
  | Fin _, _ => Fin 0
  | PInf, Fin b => match Rsign b with Lt => NInf | _ => PInf end
  | NInf, Fin b => match Rsign b with Lt => PInf | _ => NInf end
  | _, _ => NaN
  end.

Definition abs (x : fval) : fval :=
  match x with
  | Fin a => Fin (Rabs a)
  | PInf | NInf => PInf
  | NaN => NaN
  end.

Definition exp (x : fval) : fval :=
  match x with
  | Fin a => Fin (Rtrigo_def.exp a)
  | PInf => PInf
  | NInf => Fin 0
  | NaN => NaN
  end.

Definition log (x : fval) : fval :=
  match x with
  | Fin a =>
      match Rsign a with
      | Gt => Fin (ln a)
      | Eq => NInf
      | Lt => NaN
      end
  | PInf => PInf
  | _ => NaN
  end.

Definition sqrt (x : fval) : fval :=
  match x with
  | Fin a => match Rsign a with Lt => NaN | _ => Fin (R_sqrt.sqrt a) end
  | PInf => PInf
  | _ => NaN
  end.

Definition acos (x : fval) : fval :=
  match x with
  | Fin a =>
      if Rle_dec (-1) a then
        if Rle_dec a 1 then Fin (Ratan.acos a) else NaN
      else NaN
  | _ => NaN
  end.

(** [torch.clamp(x, lo, hi)] = min(max(x, lo), hi), NaN kept. *)
Definition clamp (x : fval) (lo hi : R) : fval :=
  match x with
  | Fin a => Fin (Rmin (Rmax a lo) hi)
  | PInf => Fin hi
  | NInf => Fin (Rmin lo hi)
  | NaN => NaN
  end.

(** The larger of two values, NaN propagated (as torch's reductions do). *)
Definition max (x y : fval) : fval :=
  match x, y with
  | NaN, _ | _, NaN => NaN
  | Fin a, Fin b => Fin (Rmax a b)
  | PInf, _ | _, PInf => PInf
  | NInf, z | z, NInf => z
  end.

(** Whether a real is an integer, and the parity of that integer. *)
Definition is_int (a : R) : bool :=
  if Req_dec_T (IZR (Int_part a)) a then true else false.

Definition is_odd_int (a : R) : bool := is_int a && Z.odd (Int_part a).

(** [x ** y] (C's [pow]).  For a positive base it is [exp (y * ln x)]. *)
Definition pow (x y : fval) : fval :=
  match x, y with
  | _, Fin b =>
      match Rsign b with
      | Eq => Fin 1                                   (* x ** 0 = 1, also for NaN *)
      | sb =>
          match x with
          | NaN => NaN
          | Fin a =>
              match Rsign a with
              | Gt => Fin (Rpower a b)
              | Eq => match sb with Gt => Fin 0 | _ => PInf end
              | Lt =>
                  if is_int b then
                    Fin (if Z.odd (Int_part b) then - Rpower (- a) b
                         else Rpower (- a) b)
                  else NaN
              end
          | PInf => match sb with Gt => PInf | _ => Fin 0 end
          | NInf =>
              match sb with
              | Gt => if is_odd_int b then NInf else PInf
              | _ => Fin 0
              end
          end
      end
  | NaN, _ => NaN
  | Fin a, PInf =>
      match Rsign (Rabs a - 1) with
      | Gt => PInf
      | Eq => Fin 1
      | Lt => Fin 0
      end
  | Fin a, NInf =>
      match Rsign (Rabs a - 1) with
      | Gt => Fin 0
      | Eq => Fin 1
      | Lt => PInf
      end
  | _, PInf => PInf
  | _, NInf => Fin 0
  | _, NaN => match x with
              | Fin a => if Req_dec_T a 1 then Fin 1 else NaN
              | _ => NaN
              end
  end.

End FVal.

Import FVal.

(* ================================================================= *)
(** ** Python strings, values and exceptions *)

Module Py.

Local Open Scope string_scope.

(** [str.lower]: the letters A to Z are mapped to a to z.  Characters are
    8-bit; no character above 127 lower-cases to an ASCII character. *)
Definition lower_char (c : ascii) : ascii :=
  let n := nat_of_ascii c in
  if (65 <=? n)%nat && (n <=? 90)%nat then ascii_of_nat (n + 32) else c.

Fixpoint lower (s : string) : string :=
  match s with
  | EmptyString => EmptyString
  | String c rest => String (lower_char c) (lower rest)
  end.

(** [s.startswith(p)] *)
Definition startswith (s p : string) : bool := String.prefix p s.

(** [sep.join(xs)] *)
Fixpoint join (sep : string) (xs : list string) : string :=
  match xs with
  | [] => ""
  | [x] => x
  | x :: rest => x ++ sep ++ join sep rest
  end.

(** [repr] of a tuple of strings: [('a', 'b')]. *)
Definition repr_tuple (xs : list string) : string :=
  "(" ++ join ", " (map (fun x => "'" ++ x ++ "'") xs) ++ ")".

(** The values the optional parameters can take: [None], an [int] or a
    [float]. *)
Inductive pyval : Type :=
| PyNone
| PyInt (z : Z)
| PyFloat (f : fval).

Inductive exn : Type :=
| ValueError (msg : string)
| TypeError
| AttributeError (name : string)
| RuntimeError (msg : string).

(** A computation that returns a value or raises. *)
Definition result (A : Type) : Type := (exn + A)%type.

Definition ret {A} (a : A) : result A := inr a.
Definition raise {A} (e : exn) : result A := inl e.
Definition bind {A B} (m : result A) (k : A -> result B) : result B :=
  match m with
  | inl e => inl e
  | inr a => k a
  end.

(** [if cond: raise e] *)
Definition raise_if (cond : bool) (e : exn) : result unit :=
  if cond then raise e else ret tt.

(** [isinstance(v, float)] *)
Definition isinstance_float (v : pyval) : bool :=
  match v with PyFloat _ => true | _ => false end.

(** [a == b] between numbers and [None]. *)
Definition py_eq (a b : pyval) : bool :=
  match a, b with
  | PyNone, PyNone => true
  | PyInt x, PyInt y => Z.eqb x y
  | PyInt x, PyFloat f | PyFloat f, PyInt x => FVal.eqb f (of_Z x)
  | PyFloat f, PyFloat g => FVal.eqb f g
  | _, _ => false
  end.

(** [x in xs]: some element is equal to [x].  (Identity, which [in] tests
    first, adds nothing here: the needle and the elements are never the
    same object.) *)
Definition py_in (x : pyval) (xs : list pyval) : bool :=
  existsb (fun e => py_eq x e) xs.

(** The float a number stands for in arithmetic with floats. *)
Definition as_float (v : pyval) : result fval :=
  match v with
  | PyNone => raise TypeError
  | PyInt z => ret (of_Z z)
  | PyFloat f => ret f
  end.

(** [a + b] *)
Definition py_add (a b : pyval) : result pyval :=
  match a, b with
  | PyInt x, PyInt y => ret (PyInt (x + y))
  | PyInt x, PyFloat f => ret (PyFloat (FVal.add (of_Z x) f))
  | PyFloat f, PyInt y => ret (PyFloat (FVal.add f (of_Z y)))
  | PyFloat f, PyFloat g => ret (PyFloat (FVal.add f g))
  | _, _ => raise TypeError
  end.

End Py.

Import Py.

Declare Scope py_scope.
Delimit Scope py_scope with py.
Notation "x <- m ;; k" := (bind m (fun x => k))
  (at level 61, m at next level, right associativity) : py_scope.
Notation "m ;; k" := (bind m (fun _ => k))
  (at level 61, right associativity) : py_scope.

(* ================================================================= *)
(** ** The measure kinds: [_IMEnum] *)

Local Open Scope string_scope.

(** The tuple quoted by the error message of [from_str].  In the source the
    fourth and fifth literals are adjacent with no comma between them, so
    Python concatenates them into one entry. *)
Definition _ALLOWED_INFORMATION_MEASURE : list string :=
  [ "kl_divergence";
    "alpha_divergence";
    "beta_divergence";
    "ab_divergence" ++ "renyi_divergence";
    "l1_distance";
    "l2_distance";
    "l_infinity_distance";
    "fisher_rao_distance" ].

Inductive _IMEnum : Type :=
| KL_DIVERGENCE
| ALPHA_DIVERGENCE
| BETA_DIVERGENCE
| AB_DIVERGENCE
| RENYI_DIVERGENCE
| L1_DISTANCE
| L2_DISTANCE
| L_INFINITY_DISTANCE
| FISHER_RAO_DISTANCE.

Module IMEnum.

(** [member.value] *)
Definition value (m : _IMEnum) : string :=
  match m with
  | KL_DIVERGENCE => "kl_divergence"
  | ALPHA_DIVERGENCE => "alpha_divergence"
  | BETA_DIVERGENCE => "beta_divergence"
  | AB_DIVERGENCE => "ab_divergence"
  | RENYI_DIVERGENCE => "renyi_divergence"
  | L1_DISTANCE => "l1_distance"
  | L2_DISTANCE => "l2_distance"
  | L_INFINITY_DISTANCE => "l_infinity_distance"
  | FISHER_RAO_DISTANCE => "fisher_rao_distance"
  end.

Definition members : list _IMEnum :=
  [ KL_DIVERGENCE; ALPHA_DIVERGENCE; BETA_DIVERGENCE; AB_DIVERGENCE;
    RENYI_DIVERGENCE; L1_DISTANCE; L2_DISTANCE; L_INFINITY_DISTANCE;
    FISHER_RAO_DISTANCE ].

(** [dir(cls)] of an enumeration class: the names of the members and four
    special attributes, sorted. *)
Definition dir : list string :=
  [ "AB_DIVERGENCE"; "ALPHA_DIVERGENCE"; "BETA_DIVERGENCE";
    "FISHER_RAO_DISTANCE"; "KL_DIVERGENCE"; "L1_DISTANCE"; "L2_DISTANCE";
    "L_INFINITY_DISTANCE"; "RENYI_DIVERGENCE";
    "__class__"; "__doc__"; "__members__"; "__module__" ].

(** [getattr(cls, name)] for a public name. *)
Definition getattr (name : string) : result _IMEnum :=
  if name =? "KL_DIVERGENCE" then ret KL_DIVERGENCE
  else if name =? "ALPHA_DIVERGENCE" then ret ALPHA_DIVERGENCE
  else if name =? "BETA_DIVERGENCE" then ret BETA_DIVERGENCE
  else if name =? "AB_DIVERGENCE" then ret AB_DIVERGENCE
  else if name =? "RENYI_DIVERGENCE" then ret RENYI_DIVERGENCE
  else if name =? "L1_DISTANCE" then ret L1_DISTANCE
  else if name =? "L2_DISTANCE" then ret L2_DISTANCE
  else if name =? "L_INFINITY_DISTANCE" then ret L_INFINITY_DISTANCE
  else if name =? "FISHER_RAO_DISTANCE" then ret FISHER_RAO_DISTANCE
  else raise (AttributeError name).

(** Modelled from the spec: the base class [EnumStr] of
    [torchmetrics.utilities.enums] is not part of the source file.  Two
    members are equal when their values agree up to case; the spec has the
    measure kind as one of nine variants named case-insensitively. *)
Definition eqb (a b : _IMEnum) : bool :=
  lower (value a) =? lower (value b).

(** [m in ms] *)
Definition mem (m : _IMEnum) (ms : list _IMEnum) : bool :=
  existsb (eqb m) ms.

Definition invalid_measure_msg : string :=
  "Invalid information measure got. Please use one of "
  ++ repr_tuple _ALLOWED_INFORMATION_MEASURE ++ ".".

(** The loop of [from_str] over the public names. *)
Fixpoint from_str_loop (statuses : list string) (value : string)
  : result _IMEnum :=
  match statuses with
  | [] => raise (ValueError invalid_measure_msg)
  | st :: rest =>
      if lower st =? lower value then getattr st
      else from_str_loop rest value
  end.

Definition from_str (value : string) : result _IMEnum :=
  let statuses :=
    filter (fun status => negb (startswith status "_")) dir in
  from_str_loop statuses value.

End IMEnum.

(* ================================================================= *)
(** ** The measure object: [_InformationMeasure] *)

(** The attributes of an instance. *)
Record _InformationMeasure : Type := Build_IM {
  information_measure : _IMEnum;
  alpha : pyval;
  beta : pyval
}.

Module IM.

Local Open Scope py_scope.

Definition alpha_undefined_msg (name : string) : string :=
  "Parameter `alpha` is expected to be defined for " ++ name ++ ".".

Definition beta_undefined_msg (name : string) : string :=
  "Parameter `beta` is expected to be defined for " ++ name ++ ".".

Definition alpha_0_1_msg (name : string) : string :=
  "Parameter `alpha` is expected to be differened from 0 and 1 for "
  ++ name ++ ".".

Definition beta_0_m1_msg (name : string) : string :=
  "Parameter `beta` is expected to be differened from 0 and -1 for "
  ++ name ++ ".".

Definition ab_0_msg (name : string) : string :=
  "Parameters `alpha`, `beta` and their sum are expected to be differened from 0 for "
  ++ name ++ ".".

Definition alpha_1_msg (name : string) : string :=
  "Parameter `alpha` is expected to be differened from 1 for " ++ name ++ ".".

(** [_InformationMeasure(information_measure, alpha, beta)]: the checks are
    made in the order of the source, and the first that fails raises. *)
Definition __init__ (information_measure : string) (alpha beta : pyval)
  : result _InformationMeasure :=
  self_information_measure <- IMEnum.from_str information_measure ;;
  raise_if
    (IMEnum.mem self_information_measure
       [ALPHA_DIVERGENCE; AB_DIVERGENCE; RENYI_DIVERGENCE]
     && negb (isinstance_float alpha))
    (ValueError (alpha_undefined_msg information_measure)) ;;
  raise_if
    (IMEnum.mem self_information_measure [BETA_DIVERGENCE; AB_DIVERGENCE]
     && negb (isinstance_float beta))
    (ValueError (beta_undefined_msg information_measure)) ;;
  raise_if
    (IMEnum.eqb self_information_measure ALPHA_DIVERGENCE
     && py_in alpha [PyInt 0; PyInt 1])
    (ValueError (alpha_0_1_msg information_measure)) ;;
  raise_if
    (IMEnum.eqb self_information_measure BETA_DIVERGENCE
     && py_in alpha [PyInt 0; PyInt (-1)])
    (ValueError (beta_0_m1_msg information_measure)) ;;
  ab_zero <-
    (if IMEnum.eqb self_information_measure AB_DIVERGENCE then
       s <- py_add alpha beta ;;
       ret (py_in (PyInt 0) [alpha; beta; s])
     else ret false) ;;
  raise_if ab_zero (ValueError (ab_0_msg information_measure)) ;;
  raise_if
    (IMEnum.eqb self_information_measure RENYI_DIVERGENCE
     && py_eq alpha (PyInt 1))
    (ValueError (alpha_1_msg information_measure)) ;;
  ret (Build_IM self_information_measure alpha beta).

End IM.

(* ================================================================= *)
(** ** Tensor operations *)

Module Torch.

(** A vector [vocab], a matrix [batch, vocab] and a cube
    [batch, seq_len, vocab]. *)
Definition tensor1 : Type := list fval.
Definition tensor2 : Type := list (list fval).
Definition tensor3 : Type := list (list (list fval)).

Section Elementwise.
Context {A B C : Type}.
Variable f : A -> B -> C.

(** Two sequences combined position by position.  The operands of every
    binary tensor operation below have the same shape; for operands of
    different shapes, which torch broadcasts or refuses, this is not what
    torch computes. *)
Fixpoint map2 (xs : list A) (ys : list B) : list C :=
  match xs, ys with
  | x :: xs', y :: ys' => f x y :: map2 xs' ys'
  | _, _ => []
  end.
End Elementwise.

(** Elementwise operations on matrices. *)
Definition ewise1 (f : fval -> fval) (x : tensor2) : tensor2 :=
  map (map f) x.

Definition ewise2 (f : fval -> fval -> fval) (x y : tensor2) : tensor2 :=
  map2 (map2 f) x y.

(** [torch.sum] of a vector, as the exact sum of the entries; [Rounded.rsum]
    is the sum with every partial sum rounded. *)
Definition vsum (x : tensor1) : fval := fold_right FVal.add (Fin 0) x.

(** [torch.sum(x, dim=-1)] and [x.sum(-1)] *)
Definition sum_last (x : tensor2) : tensor1 := map vsum x.

(** [torch.norm(x, p=1)], [p=2] and [p=inf] of a vector. *)
Definition vnorm1 (x : tensor1) : fval := vsum (map FVal.abs x).

Definition vnorm2 (x : tensor1) : fval :=
  FVal.sqrt (vsum (map (fun v => FVal.mul (FVal.abs v) (FVal.abs v)) x)).

(** The largest absolute value.  (torch refuses an empty vector here; a
    distribution over a vocabulary has at least one entry.) *)
Definition vnorm_inf (x : tensor1) : fval :=
  match map FVal.abs x with
  | [] => Fin 0
  | a :: rest => fold_left FVal.max rest a
  end.

(** [torch.norm(x, p=..., dim=-1)] *)
Definition norm_last (vnorm : tensor1 -> fval) (x : tensor2) : tensor1 :=
  map vnorm x.

End Torch.

Import Torch.

(* ================================================================= *)
(** ** The nine measures and their dispatch *)

Module Measure.

Local Open Scope py_scope.

(** A method of the instance: it reads [self], may assign to its attributes,
    and returns a tensor or raises. *)
Definition method : Type :=
  _InformationMeasure -> tensor2 -> tensor2 ->
  result tensor1 * _InformationMeasure.

(** A static method neither reads nor writes [self]. *)
Definition static (f : tensor2 -> tensor2 -> tensor1) : method :=
  fun self p q => (ret (f p q), self).

(** A method that only reads [self]. *)
Definition reading
  (f : _InformationMeasure -> tensor2 -> tensor2 -> result tensor1) : method :=
  fun self p q => (f self p q, self).

Definition _calculate_kl_divergence
  (preds_distribution target_distribution : tensor2) : tensor1 :=
  sum_last
    (ewise2 FVal.mul preds_distribution
       (ewise1 FVal.log
          (ewise2 FVal.div preds_distribution target_distribution))).

Definition _calculate_alpha_divergence (self : _InformationMeasure)
  (preds_distribution target_distribution : tensor2) : result tensor1 :=
  a <- as_float (alpha self) ;;
  let _alpha_denom := FVal.mul a (FVal.sub a (Fin 1)) in
  let s :=
    sum_last
      (ewise2 FVal.mul
         (ewise1 (fun v => FVal.pow v a) target_distribution)
         (ewise1 (fun v => FVal.pow v (FVal.sub (Fin 1) a))
            preds_distribution)) in
  ret (map (fun v => FVal.div (FVal.sub (Fin 1) v) _alpha_denom) s).

Definition _calculate_ab_divergence (self : _InformationMeasure)
  (preds_distribution target_distribution : tensor2) : result tensor1 :=
  b <- as_float (beta self) ;;
  a <- as_float (alpha self) ;;
  let x :=
    map FVal.log
      (sum_last
         (ewise1 (fun v => FVal.pow v (FVal.add b a)) target_distribution)) in
  let y :=
    map FVal.log
      (sum_last
         (ewise1 (fun v => FVal.pow v (FVal.add b a)) preds_distribution)) in
  let z :=
    map FVal.log
      (sum_last
         (ewise2 FVal.mul
            (ewise1 (fun v => FVal.pow v a) target_distribution)
            (ewise1 (fun v => FVal.pow v b) preds_distribution))) in
  ret
    (map2 FVal.sub
       (map2 FVal.add
          (map (fun v => FVal.div v (FVal.mul b (FVal.add b a))) x)
          (map (fun v => FVal.div v (FVal.add b a)) y))
       (map (fun v => FVal.div v (FVal.mul a b)) z)).

(** [self.alpha = 1.0], then the AB divergence on the updated instance. *)
Definition _calculate_beta_divergence : method :=
  fun self preds_distribution target_distribution =>
    let self :=
      Build_IM (information_measure self) (PyFloat (Fin 1)) (beta self) in
    (_calculate_ab_divergence self preds_distribution target_distribution,
     self).

Definition _calculate_renyi_divergence (self : _InformationMeasure)
  (preds_distribution target_distribution : tensor2) : result tensor1 :=
  a <- as_float (alpha self) ;;
  let s :=
    sum_last
      (ewise2 FVal.mul
         (ewise1 (fun v => FVal.pow v a) target_distribution)
         (ewise1 (fun v => FVal.pow v (FVal.sub (Fin 1) a))
            preds_distribution)) in
  ret (map (fun v => FVal.div (FVal.log v) (FVal.sub a (Fin 1))) s).

Definition _calculate_l1_distance
  (preds_distribution target_distribution : tensor2) : tensor1 :=
  norm_last vnorm1 (ewise2 FVal.sub target_distribution preds_distribution).

Definition _calculate_l2_distance
  (preds_distribution target_distribution : tensor2) : tensor1 :=
  norm_last vnorm2 (ewise2 FVal.sub target_distribution preds_distribution).

Definition _calculate_l_infinity_distance
  (preds_distribution target_distribution : tensor2) : tensor1 :=
  norm_last vnorm_inf
    (ewise2 FVal.sub target_distribution preds_distribution).

Definition _calculate_fisher_rao_distance
  (preds_distribution target_distribution : tensor2) : tensor1 :=
  map (FVal.mul (Fin 2))
    (map FVal.acos
       (map (fun v => FVal.clamp v 0 1)
          (sum_last
             (ewise1 FVal.sqrt
                (ewise2 FVal.mul preds_distribution target_distribution))))).

(** The methods of the class by name, for [getattr(self, name)]. *)
Definition methods : list (string * method) :=
  [ ("_calculate_kl_divergence", static _calculate_kl_divergence);
    ("_calculate_alpha_divergence", reading _calculate_alpha_divergence);
    ("_calculate_ab_divergence", reading _calculate_ab_divergence);
    ("_calculate_beta_divergence", _calculate_beta_divergence);
    ("_calculate_renyi_divergence", reading _calculate_renyi_divergence);
    ("_calculate_l1_distance", static _calculate_l1_distance);
    ("_calculate_l2_distance", static _calculate_l2_distance);
    ("_calculate_l_infinity_distance", static _calculate_l_infinity_distance);
    ("_calculate_fisher_rao_distance", static _calculate_fisher_rao_distance)
  ].

Definition getattr (name : string) : option method :=
  match find (fun entry => fst entry =? name) methods with
  | Some entry => Some (snd entry)
  | None => None
  end.

(** [self(preds_distribution, target_distribution)]: the method is looked up
    by the name built from the value of the measure kind. *)
Definition __call__ : method :=
  fun self preds_distribution target_distribtuion =>
    let name := "_calculate_" ++ IMEnum.value (information_measure self) in
    match getattr name with
    | Some information_measure_function =>
        information_measure_function self preds_distribution
          target_distribtuion
    | None => (raise (AttributeError name), self)
    end.

End Measure.

(* ================================================================= *)
(** ** The measures with the rounding of the float type *)

(** The static methods [_calculate_kl_divergence], [_calculate_l1_distance],
    [_calculate_l2_distance], [_calculate_l_infinity_distance] and
    [_calculate_fisher_rao_distance] once more, operation by operation as the
    source writes them, with the result of every arithmetic operation
    rounded to the float type of the tensors. *)

Module Rounded.

Local Open Scope R_scope.

Section Arithmetic.

(** [round] gives the float that an operation returns for the exact result
    of the operation: the identity for exact arithmetic, [round32] below for
    float32 tensors. *)
Variable round : fval -> fval.

Definition radd (x y : fval) : fval := round (FVal.add x y).
Definition rsub (x y : fval) : fval := round (FVal.sub x y).
Definition rmul (x y : fval) : fval := round (FVal.mul x y).
Definition rdiv (x y : fval) : fval := round (FVal.div x y).
Definition rsqrt (x : fval) : fval := round (FVal.sqrt x).
Definition rlog (x : fval) : fval := round (FVal.log x).
Definition racos (x : fval) : fval := round (FVal.acos x).

(** [torch.sum] of a vector, taken as adding the entries one after the
    other from the first, every partial sum rounded. *)
Definition rsum (x : tensor1) : fval := fold_left radd x (Fin 0).

(** [torch.norm(x, p=1)], [p=2] and [p=inf] of a vector; absolute values
    and maxima are exact. *)
Definition vnorm1 (x : tensor1) : fval := rsum (map FVal.abs x).

Definition vnorm2 (x : tensor1) : fval :=
  rsqrt (rsum (map (fun v => rmul (FVal.abs v) (FVal.abs v)) x)).

Definition _calculate_kl_divergence
  (preds_distribution target_distribution : tensor2) : tensor1 :=
  map rsum
    (ewise2 rmul preds_distribution
       (ewise1 rlog (ewise2 rdiv preds_distribution target_distribution))).

Definition _calculate_l1_distance
  (preds_distribution target_distribution : tensor2) : tensor1 :=
  map vnorm1 (ewise2 rsub target_distribution preds_distribution).

Definition _calculate_l2_distance
  (preds_distribution target_distribution : tensor2) : tensor1 :=
  map vnorm2 (ewise2 rsub target_distribution preds_distribution).

Definition _calculate_l_infinity_distance
  (preds_distribution target_distribution : tensor2) : tensor1 :=
  map vnorm_inf (ewise2 rsub target_distribution preds_distribution).

Definition _calculate_fisher_rao_distance
  (preds_distribution target_distribution : tensor2) : tensor1 :=
  map (rmul (Fin 2))
    (map racos
       (map (fun v => FVal.clamp v 0 1)
          (map rsum
             (ewise1 rsqrt
                (ewise2 rmul preds_distribution target_distribution))))).

End Arithmetic.

(** *** float32: round to nearest, ties to even *)







End Rounded.

(* ================================================================= *)
(** ** The distribution aggregator *)

(** The special tokens of the tokenizer, as [_get_special_tokens_map]
    returns them. *)
Record special_tokens : Type := {
  mask_token_id : Z;
  pad_token_id : Z;
  sep_token_id : Z;
  cls_token_id : Z
}.

(** An input batch: [input_ids] and [attention_mask], both
    [batch_size, seq_len]. *)
Record batch : Type := {
  input_ids : list (list Z);
  attention_mask : list (list Z)
}.

(** The masked language model: from the input ids and the attention mask to
    the logits [batch_size, seq_len, vocab_size]. *)
Definition language_model : Type :=
  list (list Z) -> list (list Z) -> tensor3.

Module Aggregator.

Local Open Scope py_scope.

(** [x.eq(v)] *)
Definition tensor_eq (x : list (list Z)) (v : Z) : list (list bool) :=
  map (map (fun id => Z.eqb id v)) x.

(** [a | b] on boolean tensors. *)
Definition tensor_or (a b : list (list bool)) : list (list bool) :=
  map2 (map2 orb) a b.

Definition _get_token_mask (input_ids : list (list Z))
  (pad_token_id sep_token_id cls_token_id : Z) : list (list bool) :=
  let token_mask :=
    tensor_or
      (tensor_or (tensor_eq input_ids pad_token_id)
         (tensor_eq input_ids sep_token_id))
      (tensor_eq input_ids cls_token_id) in
  token_mask.

(** [x.shape[1]] of a matrix with at least one row. *)
Definition shape1 {A} (x : list (list A)) : nat :=
  match x with
  | [] => 0
  | row :: _ => List.length row
  end.

(** [row[idx] = v] *)
Fixpoint set_item {A} (row : list A) (idx : nat) (v : A) : list A :=
  match row, idx with
  | [], _ => []
  | _ :: rest, O => v :: rest
  | x :: rest, S idx' => x :: set_item rest idx' v
  end.

(** [x[:, idx] = v] *)
Definition set_column {A} (x : list (list A)) (idx : nat) (v : A)
  : list (list A) :=
  map (fun row => set_item row idx v) x.

(** [x[:, idx, :]] *)
Definition select_dim1 (x : tensor3) (idx : nat) : tensor2 :=
  map (fun row => nth idx row []) x.

(** [F.softmax(x, dim=-1)] of one row. *)
Definition softmax_row (x : tensor1) : tensor1 :=
  let e := map FVal.exp x in
  map (fun v => FVal.div v (vsum e)) e.

Definition softmax (x : tensor2) : tensor2 := map softmax_row x.

(** [x.unsqueeze(1)]: [batch, vocab] to [batch, 1, vocab]. *)
Definition unsqueeze1 (x : tensor2) : tensor3 := map (fun row => [row]) x.

(** [torch.cat(xs, dim=1)]; an empty list of tensors is refused. *)
Definition cat_dim1 (xs : list tensor3) : result tensor3 :=
  match xs with
  | [] => raise (RuntimeError "torch.cat(): expected a non-empty list of Tensors")
  | x :: rest => ret (fold_left (map2 (@app tensor1)) rest x)
  end.

(** [torch.einsum('bsv, bs -> bsv', x, mask)] *)
Definition einsum_bsv_bs (x : tensor3) (mask : list (list bool)) : tensor3 :=
  map2 (map2 (fun dist m => map (fun v => FVal.mul v (of_bool m)) dist))
    x mask.

(** The sum of the rows of one sentence, entry by entry.  (The sequence has
    at least one position: [cat_dim1] has succeeded.) *)
Definition sum_rows (rows : tensor2) : tensor1 :=
  match rows with
  | [] => []
  | r :: rest => fold_left (map2 FVal.add) rest r
  end.

(** [x.sum(dim=1)] *)
Definition sum_dim1 (x : tensor3) : tensor2 := map sum_rows x.

(** [mask.sum(dim=1)]: the number of true positions of each sentence. *)
Definition count_true (m : list bool) : Z :=
  fold_right (fun (b : bool) n => ((if b then 1 else 0) + n)%Z) 0%Z m.

Definition mask_sum_dim1 (mask : list (list bool)) : list Z :=
  map count_true mask.

(** [x / counts.unsqueeze(1)] *)
Definition div_rows (x : tensor2) (counts : list Z) : tensor2 :=
  map2 (fun row c => map (fun v => FVal.div v (of_Z c)) row) x counts.

(** The distribution appended at one iteration of the loop: position
    [mask_idx] is overwritten by the mask token, the model is run, and the
    logits of that position go through the softmax at the temperature. *)
Definition position_distribution (model : language_model) (batch : batch)
  (temperature : fval) (special_tokens_map : special_tokens)
  (mask_idx : nat) : tensor2 :=
  let input_ids :=
    set_column (input_ids batch) mask_idx
      (mask_token_id special_tokens_map) in
  let logits_distribution := model input_ids (attention_mask batch) in
  let logits_distribution := select_dim1 logits_distribution mask_idx in
  softmax (ewise1 (fun v => FVal.div v temperature) logits_distribution).

Definition _get_batch_distribution (model : language_model) (batch : batch)
  (temperature : fval) (idf : bool) (special_tokens_map : special_tokens)
  : result tensor2 :=
  let seq_len := shape1 (input_ids batch) in
  let token_mask :=
    _get_token_mask (input_ids batch)
      (pad_token_id special_tokens_map)
      (sep_token_id special_tokens_map)
      (cls_token_id special_tokens_map) in
  let prob_distribution_batch :=
    map (fun mask_idx =>
           unsqueeze1
             (position_distribution model batch temperature
                special_tokens_map mask_idx))
      (seq 0 seq_len) in
  prob_distribution_batch <- cat_dim1 prob_distribution_batch ;;
  let prob_distribution_batch :=
    einsum_bsv_bs prob_distribution_batch token_mask in
  let prob_distribution_batch :=
    div_rows (sum_dim1 prob_distribution_batch) (mask_sum_dim1 token_mask) in
  ret prob_distribution_batch.

End Aggregator.

(* ================================================================= *)
(** ** The distribution of a corpus and the score *)

Module Corpus.

Local Open Scope py_scope.

(** A data loader yields the batches of a corpus in order. *)
Definition dataloader : Type := list batch.

(** [torch.cat(xs, dim=0)]; an empty list of tensors is refused.  (The
    tensors have the same number of columns: they come from one model.) *)
Definition cat_dim0 (xs : list tensor2) : result tensor2 :=
  match xs with
  | [] => raise (RuntimeError "torch.cat(): expected a non-empty list of Tensors")
  | _ => ret (List.concat xs)
  end.

Section DataDistribution.

(** [_get_progress_bar] and [_input_data_collator] of
    [torchmetrics.functional.text.helper_embedding_metric] are not part of
    the source file: they are parameters.  The first gives the batches the
    loop iterates over, from the loader and the verbose flag; the second
    prepares one batch.  (The device plays no part in the values.) *)
Variable _get_progress_bar : dataloader -> bool -> dataloader.
Variable _input_data_collator : batch -> batch.

(** The loop of [_get_data_distribution]: the distribution of each batch,
    in order; the first batch that raises ends the loop. *)
Fixpoint batch_distributions (model : language_model)
  (batches : dataloader) (temperature : fval) (idf : bool)
  (special_tokens_map : special_tokens) : result (list tensor2) :=
  match batches with
  | [] => ret []
  | batch :: rest =>
      let batch := _input_data_collator batch in
      d <- Aggregator._get_batch_distribution model batch temperature idf
             special_tokens_map ;;
      ds <- batch_distributions model rest temperature idf
              special_tokens_map ;;
      ret (d :: ds)
  end.

Definition _get_data_distribution (model : language_model)
  (dataloader : dataloader) (temperature : fval) (idf : bool)
  (special_tokens_map : special_tokens) (verbose : bool) : result tensor2 :=
  prob_distribution <-
    batch_distributions model (_get_progress_bar dataloader verbose)
      temperature idf special_tokens_map ;;
  cat_dim0 prob_distribution.

(** [_infolm_compute]: the distribution of the predictions, then that of
    the references, then the call of the measure, which may assign to the
    instance. *)
Definition _infolm_compute (model : language_model)
  (preds_dataloader target_dataloader : dataloader) (temperature : fval)
  (idf : bool) (information_measure_cls : _InformationMeasure)
  (special_tokens_map : special_tokens) (verbose : bool)
  : result tensor1 * _InformationMeasure :=
  match _get_data_distribution model preds_dataloader temperature idf
          special_tokens_map verbose with
  | inl e => (raise e, information_measure_cls)
  | inr preds_distribution =>
      match _get_data_distribution model target_dataloader temperature idf
              special_tokens_map verbose with
      | inl e => (raise e, information_measure_cls)
      | inr target_distribution =>
          Measure.__call__ information_measure_cls preds_distribution
            target_distribution
      end
  end.

End DataDistribution.

End Corpus.

(* ================================================================= *)
(** ** Vocabulary of the statements *)

Module Spec.

Local Open Scope R_scope.

(** Whether a float equals the integer [z]. *)
Definition float_is (f : fval) (z : Z) : bool := FVal.eqb f (of_Z z).

(** The method that [__call__] finds for each kind. *)
Definition method_of (kind : _IMEnum) : Measure.method :=
  match kind with
  | KL_DIVERGENCE => Measure.static Measure._calculate_kl_divergence
  | ALPHA_DIVERGENCE => Measure.reading Measure._calculate_alpha_divergence
  | BETA_DIVERGENCE => Measure._calculate_beta_divergence
  | AB_DIVERGENCE => Measure.reading Measure._calculate_ab_divergence
  | RENYI_DIVERGENCE => Measure.reading Measure._calculate_renyi_divergence
  | L1_DISTANCE => Measure.static Measure._calculate_l1_distance
  | L2_DISTANCE => Measure.static Measure._calculate_l2_distance
  | L_INFINITY_DISTANCE =>
      Measure.static Measure._calculate_l_infinity_distance
  | FISHER_RAO_DISTANCE =>
      Measure.static Measure._calculate_fisher_rao_distance
  end.

(** A tensor of finite entries, from the reals it holds. *)
Definition lift1 (x : list R) : tensor1 := map Fin x.
Definition lift2 (x : list (list R)) : tensor2 := map lift1 x.

(** The sum of a list of reals. *)
Definition sumR (x : list R) : R := fold_right Rplus 0 x.

(** A distribution has non-negative entries; a probability distribution
    sums to 1 as well. *)
Definition nonneg (x : list R) : Prop := Forall (fun r => 0 <= r) x.

Definition positive (x : list R) : Prop := Forall (fun r => 0 < r) x.

Definition probability (x : list R) : Prop := nonneg x /\ sumR x = 1.

(** Two batches of the same shape. *)
Definition same_shape {A B} (x : list (list A)) (y : list (list B)) : Prop :=
  Forall2 (fun r s => List.length r = List.length s) x y.

(** The Fisher-Rao distance as the specification writes it, for one
    sentence: 2 acos (clamp (sum (sqrt (p q)), 0, 1)). *)
Definition fisher_rao_formula (p q : list R) : R :=
  2 * Ratan.acos
        (Rmin (Rmax (sumR (map2 (fun x y => R_sqrt.sqrt (x * y)) p q)) 0) 1).

(** The real a finite value holds. *)
Definition to_R (x : fval) : R :=
  match x with Fin r => r | _ => 0 end.

(** A mask value as a number: 1 for true and 0 for false. *)
Definition b2r (b : bool) : R := if b then 1 else 0.

(** Whether a token id is the pad, the sep or the cls token. *)
Definition is_special (pad sep cls : Z) (id : Z) : bool :=
  (id =? pad)%Z || (id =? sep)%Z || (id =? cls)%Z.

(** A matrix of [n] rows of [m] entries. *)
Definition rectangular {A} (x : list (list A)) (n m : nat) : Prop :=
  List.length x = n /\ Forall (fun row => List.length row = m) x.

(** Logits of shape [n, m, v] with finite entries. *)
Definition finite_logits (x : tensor3) (n m v : nat) : Prop :=
  List.length x = n
  /\ Forall (fun sentence =>
               List.length sentence = m
               /\ Forall (fun dist =>
                            List.length dist = v /\ Forall is_finite dist)
                    sentence) x.

(** The mean of the distributions [dists] (one per position, each over [v]
    tokens) restricted to the positions where [mask] is true: entry by entry,
    the sum over the positions of mask value times probability, divided by
    the number of true positions. *)
Definition masked_mean (v : nat) (dists : list (list R)) (mask : list bool)
  : list R :=
  map (fun i =>
         sumR (map2 (fun dist m => nth i dist 0 * b2r m) dists mask)
         / IZR (Aggregator.count_true mask))
    (seq 0 v).

(** What the aggregator computes for one sentence, from the distributions of
    its positions and its row of the token mask: the masked rows are summed
    and divided by the number of true positions. *)
Definition aggregate_row (dists : tensor2) (mask : list bool) : tensor1 :=
  map (fun v => FVal.div v (of_Z (Aggregator.count_true mask)))
    (Aggregator.sum_rows
       (map2 (fun dist m => map (fun v => FVal.mul v (of_bool m)) dist)
          dists mask)).

(** The token mask of a batch, as [_get_batch_distribution] builds it. *)
Definition batch_token_mask (data : batch) (tokens : special_tokens)
  : list (list bool) :=
  Aggregator._get_token_mask (input_ids data)
    (pad_token_id tokens) (sep_token_id tokens) (cls_token_id tokens).

(** A small setting: BERT's special tokens, a model with a vocabulary of two
    tokens whose logits are all zero, and a batch of two sentences of two
    positions, the first without any special token. *)
Definition bert_tokens : special_tokens :=
  {| mask_token_id := 103; pad_token_id := 0;
     sep_token_id := 102; cls_token_id := 101 |}.

Definition flat_model : language_model :=
  fun ids _ => map (map (fun _ : Z => [Fin 0; Fin 0])) ids.


(** The largest entry of a list of reals. *)
Definition max_list (x : list R) : R :=
  match x with
  | [] => 0
  | a :: rest => fold_left Rmax rest a
  end.


Definition l2_formula (p q : list R) : R :=
  R_sqrt.sqrt (sumR (map2 (fun a b => (b - a) * (b - a)) p q)).

Definition linf_formula (p q : list R) : R :=
  max_list (map2 (fun a b => Rabs (b - a)) p q).


(** What the AB divergence of the source gives for a distribution paired
    with itself. *)
Definition ab_self_formula (a b : R) (x : list R) : R :=
  ln (sumR (map (fun r => Rpower r (a + b)) x)) * (a - 1) / (a * (a + b)).

(** A batch the aggregator turns into finite distributions: a matrix of
    token ids with at least one sentence and one position, logits that are
    finite and of the shape of the batch over [vocab] tokens, and a true
    position in the row of the token mask of every sentence. *)
Definition content_batch (model : language_model) (data : batch)
  (tokens : special_tokens) (vocab : nat) : Prop :=
  exists size seq_len,
    rectangular (input_ids data) size seq_len
    /\ (0 < size)%nat /\ (0 < seq_len)%nat
    /\ (forall ids, rectangular ids size seq_len ->
          finite_logits (model ids (attention_mask data)) size seq_len vocab)
    /\ (forall b, (b < size)%nat ->
          Aggregator.count_true (nth b (batch_token_mask data tokens) [])
          <> 0%Z).

(** A batch of two sentences that both start with the cls token. *)
Definition cls_sentences : batch :=
  {| input_ids := [[101; 2023]; [101; 2003]]%Z;
     attention_mask := [[1; 1]; [1; 1]]%Z |}.

(** The parameters the constructor lets through for each kind. *)
Definition valid_parameters (kind : _IMEnum) (a b : pyval) : Prop :=
  match kind with
  | ALPHA_DIVERGENCE =>
      exists f, a = PyFloat f /\ float_is f 0 = false /\ float_is f 1 = false
  | RENYI_DIVERGENCE => exists f, a = PyFloat f /\ float_is f 1 = false
  | AB_DIVERGENCE =>
      exists f g, a = PyFloat f /\ b = PyFloat g
                  /\ float_is f 0 = false /\ float_is g 0 = false
                  /\ float_is (FVal.add f g) 0 = false
  | BETA_DIVERGENCE =>
      (exists g, b = PyFloat g) /\ py_in a [PyInt 0; PyInt (-1)] = false
  | _ => True
  end.

(** A beta divergence built with alpha left out, and a batch of one uniform
    distribution over two tokens. *)
Definition example_beta : _InformationMeasure :=
  Build_IM BETA_DIVERGENCE PyNone (PyFloat (Fin 2)).

Definition example_batch : tensor2 := [[Fin (1 / 2); Fin (1 / 2)]].

(** The score of every sentence of a batch is zero. *)
Definition zeros {A} (x : list A) : tensor1 := map (fun _ => Fin 0) x.






End Spec.

Import Spec.

(* ================================================================= *)
(** * Properties *)

(** ** The name lookup *)

Module IMEnumFacts.

Lemma eqb_eq (a b : _IMEnum) : IMEnum.eqb a b = true <-> a = b.
Proof.
  split.
  - destruct a, b; intros H; try reflexivity; vm_compute in H; discriminate H.
  - intros ->. destruct b; reflexivity.
Qed.

Lemma value_lower (m : _IMEnum) : lower (IMEnum.value m) = IMEnum.value m.
Proof. destruct m; reflexivity. Qed.

Lemma value_inj (a b : _IMEnum) : IMEnum.value a = IMEnum.value b -> a = b.
Proof.
  intros H. apply eqb_eq. unfold IMEnum.eqb. rewrite H. apply String.eqb_refl.
Qed.

(** The loop returns the attribute of the first public name that matches. *)
Lemma from_str_loop_find (statuses : list string) (value : string) :
  IMEnum.from_str_loop statuses value =
  match find (fun st => lower st =? lower value) statuses with
  | Some st => IMEnum.getattr st
  | None => raise (ValueError IMEnum.invalid_measure_msg)
  end.
Proof.
  induction statuses as [|st rest IH]; simpl; [reflexivity|].
  destruct (lower st =? lower value); [reflexivity | exact IH].
Qed.

(** The public names of the class are the names of the nine members. *)
Lemma statuses_members :
  filter (fun status => negb (startswith status "_")) IMEnum.dir =
  [ "AB_DIVERGENCE"; "ALPHA_DIVERGENCE"; "BETA_DIVERGENCE";
    "FISHER_RAO_DISTANCE"; "KL_DIVERGENCE"; "L1_DISTANCE"; "L2_DISTANCE";
    "L_INFINITY_DISTANCE"; "RENYI_DIVERGENCE" ].
Proof. reflexivity. Qed.

Lemma from_str_match (value : string) (m : _IMEnum) :
  lower value = IMEnum.value m -> IMEnum.from_str value = inr m.
Proof.
  intros H. unfold IMEnum.from_str.
  rewrite from_str_loop_find, H.
  destruct m; reflexivity.
Qed.

Lemma from_str_no_match (value : string) :
  (forall m, lower value <> IMEnum.value m) ->
  IMEnum.from_str value = inl (ValueError IMEnum.invalid_measure_msg).
Proof.
  intros H. unfold IMEnum.from_str.
  rewrite from_str_loop_find, statuses_members.
  assert (E : forall m, (IMEnum.value m =? lower value) = false).
  { intros m. apply String.eqb_neq. intros E. apply (H m). symmetry. exact E. }
  cbn [find].
  change (lower "AB_DIVERGENCE") with (IMEnum.value AB_DIVERGENCE).
  change (lower "ALPHA_DIVERGENCE") with (IMEnum.value ALPHA_DIVERGENCE).
  change (lower "BETA_DIVERGENCE") with (IMEnum.value BETA_DIVERGENCE).
  change (lower "FISHER_RAO_DISTANCE") with (IMEnum.value FISHER_RAO_DISTANCE).
  change (lower "KL_DIVERGENCE") with (IMEnum.value KL_DIVERGENCE).
  change (lower "L1_DISTANCE") with (IMEnum.value L1_DISTANCE).
  change (lower "L2_DISTANCE") with (IMEnum.value L2_DISTANCE).
  change (lower "L_INFINITY_DISTANCE") with (IMEnum.value L_INFINITY_DISTANCE).
  change (lower "RENYI_DIVERGENCE") with (IMEnum.value RENYI_DIVERGENCE).
  rewrite !E. reflexivity.
Qed.

(** A successful lookup returns the member whose value is the lower-cased
    argument. *)
Lemma from_str_inv (value : string) (m : _IMEnum) :
  IMEnum.from_str value = inr m -> lower value = IMEnum.value m.
Proof.
  intros H.
  assert (D : forall s t : string, {s = t} + {s <> t}) by apply string_dec.
  destruct (D (lower value) (IMEnum.value KL_DIVERGENCE)) as [E|N1];
    [rewrite (from_str_match _ _ E) in H; congruence|].
  destruct (D (lower value) (IMEnum.value ALPHA_DIVERGENCE)) as [E|N2];
    [rewrite (from_str_match _ _ E) in H; congruence|].
  destruct (D (lower value) (IMEnum.value BETA_DIVERGENCE)) as [E|N3];
    [rewrite (from_str_match _ _ E) in H; congruence|].
  destruct (D (lower value) (IMEnum.value AB_DIVERGENCE)) as [E|N4];
    [rewrite (from_str_match _ _ E) in H; congruence|].
  destruct (D (lower value) (IMEnum.value RENYI_DIVERGENCE)) as [E|N5];
    [rewrite (from_str_match _ _ E) in H; congruence|].
  destruct (D (lower value) (IMEnum.value L1_DISTANCE)) as [E|N6];
    [rewrite (from_str_match _ _ E) in H; congruence|].
  destruct (D (lower value) (IMEnum.value L2_DISTANCE)) as [E|N7];
    [rewrite (from_str_match _ _ E) in H; congruence|].
  destruct (D (lower value) (IMEnum.value L_INFINITY_DISTANCE)) as [E|N8];
    [rewrite (from_str_match _ _ E) in H; congruence|].
  destruct (D (lower value) (IMEnum.value FISHER_RAO_DISTANCE)) as [E|N9];
    [rewrite (from_str_match _ _ E) in H; congruence|].
  rewrite from_str_no_match in H; [discriminate H|].
  intros m'; destruct m'; assumption.
Qed.

End IMEnumFacts.

(** ** Validation at construction *)

Module InitFacts.

Import IMEnumFacts.

Lemma float_is_Fin_true (r : R) (z : Z) :
  r = IZR z -> float_is (Fin r) z = true.
Proof.
  intros E. unfold float_is, FVal.eqb, of_Z.
  destruct (Req_dec_T r (IZR z)); [reflexivity | contradiction].
Qed.

Lemma float_is_Fin_false (r : R) (z : Z) :
  r <> IZR z -> float_is (Fin r) z = false.
Proof.
  intros E. unfold float_is, FVal.eqb, of_Z.
  destruct (Req_dec_T r (IZR z)); [contradiction | reflexivity].
Qed.

Ltac init_step :=
  unfold bind, raise_if, raise, ret;
  cbn [IMEnum.mem existsb isinstance_float negb andb orb py_in py_eq py_add];
  repeat match goal with
    | |- context [IMEnum.eqb ?a ?b] =>
        let v := eval vm_compute in (IMEnum.eqb a b) in
        change (IMEnum.eqb a b) with v
    end.

(** Runs the constructor on a name whose lookup is known. *)
Ltac init_eval H :=
  unfold IM.__init__; rewrite H; repeat (progress init_step).

(** What a successful construction stores. *)
Lemma init_inv (name : string) (a b : pyval) (im : _InformationMeasure) :
  IM.__init__ name a b = inr im ->
  IMEnum.from_str name = inr (information_measure im)
  /\ alpha im = a /\ beta im = b.
Proof.
  unfold IM.__init__, bind, raise_if, raise, ret.
  destruct (IMEnum.from_str name) as [e|k]; [discriminate|].
  repeat match goal with
    | |- context [if ?c then _ else _] => destruct c; try discriminate
    | |- context [match ?c with inl _ => _ | inr _ => _ end] =>
        destruct c; try discriminate
    end;
  intros H; injection H as <-; auto.
Qed.

(** C4: a name that matches none of the nine measure names up to case is
    refused at construction with the unrecognized-measure error, and a name
    that matches one of them up to case is looked up successfully and selects
    that measure. *)
Theorem measure_name_lookup (value : string) (alpha beta : pyval) :
  ((forall m, lower value <> lower (IMEnum.value m)) ->
   IM.__init__ value alpha beta =
   inl (ValueError IMEnum.invalid_measure_msg))
  /\ (forall m, lower value = lower (IMEnum.value m) ->
      IMEnum.from_str value = inr m).
Proof.
  split.
  - intros H. unfold IM.__init__.
    rewrite from_str_no_match; [reflexivity|].
    intros m. rewrite <- value_lower. apply H.
  - intros m H. apply from_str_match. rewrite <- value_lower. exact H.
Qed.

Lemma measure_name_lookup_witness :
  IM.__init__ "cosine_distance" PyNone PyNone =
  inl (ValueError IMEnum.invalid_measure_msg)
  /\ IMEnum.from_str "Fisher_RAO_distance" = inr FISHER_RAO_DISTANCE.
Proof.
  split.
  - apply (proj1 (measure_name_lookup "cosine_distance" PyNone PyNone)).
    intros m; destruct m; vm_compute; discriminate.
  - apply (proj2 (measure_name_lookup "Fisher_RAO_distance" PyNone PyNone)).
    reflexivity.
Defined.

(** The text of the unrecognized-measure error. *)
Example invalid_measure_msg_text :
  IMEnum.invalid_measure_msg =
  "Invalid information measure got. Please use one of ('kl_divergence', 'alpha_divergence', 'beta_divergence', 'ab_divergencerenyi_divergence', 'l1_distance', 'l2_distance', 'l_infinity_distance', 'fisher_rao_distance').".
Proof. reflexivity. Qed.

(** C6: for the alpha divergence, a missing alpha is refused with the
    parameter-undefined error, a float alpha equal to 0 or to 1 (so 0.0 and
    1.0) is refused with the excluded-value error, and every other float
    alpha is accepted, whatever beta is. *)
Theorem alpha_divergence_validation (name : string) (beta : pyval) :
  IMEnum.from_str name = inr ALPHA_DIVERGENCE ->
  IM.__init__ name PyNone beta =
    inl (ValueError (IM.alpha_undefined_msg name))
  /\ IM.__init__ name (PyFloat (Fin 1)) beta =
       inl (ValueError (IM.alpha_0_1_msg name))
  /\ IM.__init__ name (PyFloat (Fin 0)) beta =
       inl (ValueError (IM.alpha_0_1_msg name))
  /\ (forall f, float_is f 0 || float_is f 1 = true ->
      IM.__init__ name (PyFloat f) beta =
        inl (ValueError (IM.alpha_0_1_msg name)))
  /\ (forall f, float_is f 0 = false -> float_is f 1 = false ->
      IM.__init__ name (PyFloat f) beta =
        inr (Build_IM ALPHA_DIVERGENCE (PyFloat f) beta)).
Proof.
  intros H.
  assert (G : forall f, float_is f 0 || float_is f 1 = true ->
      IM.__init__ name (PyFloat f) beta =
        inl (ValueError (IM.alpha_0_1_msg name))).
  { intros f Hf. init_eval H. fold (float_is f 0) (float_is f 1).
    rewrite orb_false_r, Hf. reflexivity. }
  split; [|split; [|split; [|split]]].
  - init_eval H. reflexivity.
  - apply G. unfold float_is, FVal.eqb, of_Z.
    destruct (Req_dec_T 1 (IZR 1)) as [_|N]; [apply orb_true_r | now elim N].
  - apply G. unfold float_is, FVal.eqb, of_Z.
    destruct (Req_dec_T 0 (IZR 0)) as [_|N]; [reflexivity | now elim N].
  - exact G.
  - intros f H0 H1. init_eval H. fold (float_is f 0) (float_is f 1).
    rewrite H0, H1. reflexivity.
Qed.

Lemma alpha_divergence_validation_witness :
  IM.__init__ "alpha_divergence" PyNone PyNone =
    inl (ValueError (IM.alpha_undefined_msg "alpha_divergence"))
  /\ IM.__init__ "alpha_divergence" (PyFloat (Fin 1)) PyNone =
       inl (ValueError (IM.alpha_0_1_msg "alpha_divergence"))
  /\ IM.__init__ "alpha_divergence" (PyFloat (Fin 2)) PyNone =
       inr (Build_IM ALPHA_DIVERGENCE (PyFloat (Fin 2)) PyNone).
Proof.
  pose proof (alpha_divergence_validation "alpha_divergence" PyNone
                eq_refl) as H.
  split; [exact (proj1 H) | split; [exact (proj1 (proj2 H))|]].
  apply (proj2 (proj2 (proj2 (proj2 H)))).
  - apply float_is_Fin_false. apply eq_IZR_contrapositive. discriminate.
  - apply float_is_Fin_false. apply eq_IZR_contrapositive. discriminate.
Defined.

(** C5: for the AB divergence, construction is refused whenever alpha, beta
    or their sum equals 0: with the zero error when both are floats (so for
    alpha = 0.5 and beta = -0.5), and with one of the parameter errors in any
    case; float parameters with alpha, beta and alpha + beta all different
    from 0 are accepted. *)
Theorem ab_divergence_validation (name : string) :
  IMEnum.from_str name = inr AB_DIVERGENCE ->
  (forall a b,
     float_is a 0 || float_is b 0 || float_is (FVal.add a b) 0 = true ->
     IM.__init__ name (PyFloat a) (PyFloat b) =
       inl (ValueError (IM.ab_0_msg name)))
  /\ IM.__init__ name (PyFloat (Fin (1 / 2))) (PyFloat (Fin (- 1 / 2))) =
       inl (ValueError (IM.ab_0_msg name))
  /\ (forall alpha beta,
        py_eq alpha (PyInt 0) = true \/ py_eq beta (PyInt 0) = true
        \/ (exists s, py_add alpha beta = inr s
                      /\ py_eq s (PyInt 0) = true) ->
        exists msg, IM.__init__ name alpha beta = inl (ValueError msg))
  /\ (forall a b,
        float_is a 0 = false -> float_is b 0 = false ->
        float_is (FVal.add a b) 0 = false ->
        IM.__init__ name (PyFloat a) (PyFloat b) =
          inr (Build_IM AB_DIVERGENCE (PyFloat a) (PyFloat b))).
Proof.
  intros H.
  assert (G : forall a b,
     float_is a 0 || float_is b 0 || float_is (FVal.add a b) 0 = true ->
     IM.__init__ name (PyFloat a) (PyFloat b) =
       inl (ValueError (IM.ab_0_msg name))).
  { intros a b Hz. init_eval H.
    fold (float_is a 0) (float_is b 0) (float_is (FVal.add a b) 0).
    rewrite orb_false_r, orb_assoc, Hz. reflexivity. }
  split; [exact G | split; [|split]].
  - apply G. apply orb_true_iff. right.
    apply float_is_Fin_true. simpl. lra.
  - intros alpha beta Hz.
    destruct alpha as [|x|a].
    + eexists. init_eval H. reflexivity.
    + eexists. init_eval H. reflexivity.
    + destruct beta as [|y|b].
      * eexists. init_eval H. reflexivity.
      * eexists. init_eval H. reflexivity.
      * exists (IM.ab_0_msg name). apply G.
        destruct Hz as [Hz|[Hz|(s & Hs & Hz)]].
        -- change (float_is a 0 = true) in Hz. rewrite Hz. reflexivity.
        -- change (float_is b 0 = true) in Hz. rewrite Hz.
           apply orb_true_iff. left. apply orb_true_r.
        -- injection Hs as <-.
           change (float_is (FVal.add a b) 0 = true) in Hz. rewrite Hz.
           apply orb_true_r.
  - intros a b Ha Hb Hs. init_eval H.
    fold (float_is a 0) (float_is b 0) (float_is (FVal.add a b) 0).
    rewrite Ha, Hb, Hs. reflexivity.
Qed.

Lemma ab_divergence_validation_witness :
  IM.__init__ "ab_divergence" (PyFloat (Fin (1 / 2))) (PyFloat (Fin (- 1 / 2)))
  = inl (ValueError (IM.ab_0_msg "ab_divergence"))
  /\ IM.__init__ "ab_divergence" (PyFloat (Fin 1)) (PyFloat (Fin 2))
     = inr (Build_IM AB_DIVERGENCE (PyFloat (Fin 1)) (PyFloat (Fin 2))).
Proof.
  pose proof (ab_divergence_validation "ab_divergence" eq_refl) as H.
  split; [exact (proj1 (proj2 H))|].
  apply (proj2 (proj2 (proj2 H))); apply float_is_Fin_false; simpl; lra.
Defined.

(** What the constructor does for the beta divergence: beta must be a float,
    and the excluded values 0 and -1 are looked for in alpha. *)
Lemma beta_divergence_checks_alpha (name : string) (alpha : pyval) (f : fval) :
  IMEnum.from_str name = inr BETA_DIVERGENCE ->
  IM.__init__ name alpha (PyFloat f) =
  if py_in alpha [PyInt 0; PyInt (-1)]
  then inl (ValueError (IM.beta_0_m1_msg name))
  else inr (Build_IM BETA_DIVERGENCE alpha (PyFloat f)).
Proof.
  intros H. init_eval H.
  destruct (py_eq alpha (PyInt 0) || (py_eq alpha (PyInt (-1)) || false));
    reflexivity.
Qed.

(** C2: the beta divergence is constructed without error for beta = 0.0 and
    for beta = -1.0 when alpha is left out, and is refused for the admissible
    beta = 2.0 when alpha is 0.0: the excluded values are looked for in alpha,
    not in beta. *)
Theorem beta_divergence_excluded_values_not_checked :
  IM.__init__ "beta_divergence" PyNone (PyFloat (Fin 0)) =
    inr (Build_IM BETA_DIVERGENCE PyNone (PyFloat (Fin 0)))
  /\ IM.__init__ "beta_divergence" PyNone (PyFloat (Fin (-1))) =
       inr (Build_IM BETA_DIVERGENCE PyNone (PyFloat (Fin (-1))))
  /\ IM.__init__ "beta_divergence" (PyFloat (Fin 0)) (PyFloat (Fin 2)) =
       inl (ValueError (IM.beta_0_m1_msg "beta_divergence")).
Proof.
  split; [|split].
  - rewrite beta_divergence_checks_alpha; reflexivity.
  - rewrite beta_divergence_checks_alpha; reflexivity.
  - rewrite beta_divergence_checks_alpha by reflexivity.
    cbn [py_in existsb py_eq]. fold (float_is (Fin 0) 0).
    rewrite float_is_Fin_true; reflexivity.
Qed.

(** A required alpha, and a required beta, must be a float. *)
Lemma alpha_required (name : string) (kind : _IMEnum) (a b : pyval) :
  IMEnum.from_str name = inr kind ->
  In kind [ALPHA_DIVERGENCE; AB_DIVERGENCE; RENYI_DIVERGENCE] ->
  isinstance_float a = false ->
  IM.__init__ name a b = inl (ValueError (IM.alpha_undefined_msg name)).
Proof.
  intros H [<-|[<-|[<-|[]]]] F; destruct a; try discriminate F;
    init_eval H; reflexivity.
Qed.

Lemma beta_required (name : string) (kind : _IMEnum) (a b : pyval) :
  IMEnum.from_str name = inr kind ->
  In kind [BETA_DIVERGENCE; AB_DIVERGENCE] ->
  isinstance_float b = false ->
  exists msg, IM.__init__ name a b = inl (ValueError msg).
Proof.
  intros H [<-|[<-|[]]] F; destruct b; try discriminate F;
    destruct a; eexists; init_eval H; reflexivity.
Qed.

(** C10: where alpha is required (alpha, AB and Renyi divergence) an integer
    alpha is refused with the error raised for a missing alpha; where beta is
    required (beta and AB divergence) an integer beta is refused exactly as a
    missing beta is, with the beta-undefined error once alpha has passed its
    own check. *)
Theorem integer_parameter_rejected
  (name : string) (kind : _IMEnum) (z : Z) (other : pyval) :
  IMEnum.from_str name = inr kind ->
  (In kind [ALPHA_DIVERGENCE; AB_DIVERGENCE; RENYI_DIVERGENCE] ->
   IM.__init__ name (PyInt z) other =
     inl (ValueError (IM.alpha_undefined_msg name))
   /\ IM.__init__ name PyNone other =
        inl (ValueError (IM.alpha_undefined_msg name)))
  /\ (In kind [BETA_DIVERGENCE; AB_DIVERGENCE] ->
      IM.__init__ name other (PyInt z) = IM.__init__ name other PyNone
      /\ (exists msg,
            IM.__init__ name other (PyInt z) = inl (ValueError msg))
      /\ (kind = BETA_DIVERGENCE \/ isinstance_float other = true ->
          IM.__init__ name other (PyInt z) =
            inl (ValueError (IM.beta_undefined_msg name)))).
Proof.
  intros H. split.
  - intros [<-|[<-|[<-|[]]]]; split; init_eval H; reflexivity.
  - intros [<-|[<-|[]]].
    + split; [|split].
      * init_eval H. reflexivity.
      * eexists. init_eval H. reflexivity.
      * intros _. init_eval H. reflexivity.
    + split; [|split].
      * destruct other; init_eval H; reflexivity.
      * destruct other; eexists; init_eval H; reflexivity.
      * intros [D|F]; [discriminate D|].
        destruct other; try discriminate F. init_eval H. reflexivity.
Qed.

Lemma integer_parameter_rejected_witness :
  IM.__init__ "renyi_divergence" (PyInt 2) PyNone =
    inl (ValueError (IM.alpha_undefined_msg "renyi_divergence"))
  /\ IM.__init__ "beta_divergence" PyNone (PyInt 2) =
       inl (ValueError (IM.beta_undefined_msg "beta_divergence")).
Proof.
  split.
  - apply (proj1 (integer_parameter_rejected "renyi_divergence" 2 PyNone
                    eq_refl)).
    simpl. auto.
  - apply (proj2 (integer_parameter_rejected "beta_divergence" 2 PyNone
                    eq_refl)).
    + simpl. auto.
    + left. reflexivity.
Defined.

End InitFacts.

(** ** Calling the measure *)

Module CallFacts.

Import InitFacts.

Lemma call_dispatch (self : _InformationMeasure) (p q : tensor2) :
  Measure.__call__ self p q = method_of (information_measure self) self p q.
Proof.
  unfold Measure.__call__.
  destruct (information_measure self); reflexivity.
Qed.

(** A constructed instance holds floats where its kind reads them. *)
Lemma init_alpha_float (name : string) (a b : pyval)
  (im : _InformationMeasure) :
  IM.__init__ name a b = inr im ->
  In (information_measure im)
    [ALPHA_DIVERGENCE; AB_DIVERGENCE; RENYI_DIVERGENCE] ->
  exists f, alpha im = PyFloat f.
Proof.
  intros H K. destruct (init_inv _ _ _ H) as (Hk & Ha & Hb).
  destruct (alpha im) as [| z | f] eqn:E; [| | now exists f];
    rewrite (alpha_required name a b Hk K) in H;
    try discriminate H; rewrite <- Ha; reflexivity.
Qed.

Lemma init_beta_float (name : string) (a b : pyval)
  (im : _InformationMeasure) :
  IM.__init__ name a b = inr im ->
  In (information_measure im) [BETA_DIVERGENCE; AB_DIVERGENCE] ->
  exists f, beta im = PyFloat f.
Proof.
  intros H K. destruct (init_inv _ _ _ H) as (Hk & Ha & Hb).
  destruct (beta im) as [| z | f] eqn:E; [| | now exists f];
    destruct (beta_required name a b Hk K) as (msg & M);
    try (rewrite <- Hb; reflexivity); rewrite M in H; discriminate H.
Qed.

(** C3 (as stated, refuted): a beta divergence constructed with alpha left
    out has alpha = None; after one call its alpha is 1.0, so the call has
    changed the instance. *)
Lemma call_overwrites_alpha :
  IM.__init__ "beta_divergence" PyNone (PyFloat (Fin 2)) = inr example_beta
  /\ alpha example_beta = PyNone
  /\ alpha (snd (Measure.__call__ example_beta example_batch example_batch))
     = PyFloat (Fin 1)
  /\ snd (Measure.__call__ example_beta example_batch example_batch)
     <> example_beta.
Proof.
  split; [|split; [|split]].
  - rewrite beta_divergence_checks_alpha; reflexivity.
  - reflexivity.
  - rewrite call_dispatch. reflexivity.
  - rewrite call_dispatch. cbn. discriminate.
Qed.

(** C3 (as amended): on a constructed instance a call returns scores, leaves
    the kind and beta as they were, and leaves alpha as it was for every kind
    but the beta divergence, whose alpha it sets to 1.0; a second call on the
    same tensors returns the same scores and changes nothing more. *)
Theorem call_effect (name : string) (a b : pyval)
  (im : _InformationMeasure) (p q : tensor2) :
  IM.__init__ name a b = inr im ->
  let first := Measure.__call__ im p q in
  let second := Measure.__call__ (snd first) p q in
  (exists scores, fst first = inr scores)
  /\ fst second = fst first
  /\ snd second = snd first
  /\ information_measure (snd first) = information_measure im
  /\ beta (snd first) = beta im
  /\ (information_measure im <> BETA_DIVERGENCE -> snd first = im)
  /\ (information_measure im = BETA_DIVERGENCE ->
      alpha (snd first) = PyFloat (Fin 1)).
Proof.
  intros H. cbv zeta.
  pose proof (init_alpha_float _ _ _ H) as HA.
  pose proof (init_beta_float _ _ _ H) as HB.
  rewrite !call_dispatch.
  destruct im as [kind al be]; cbn [information_measure alpha beta] in *.
  destruct kind; cbn [method_of Measure.static Measure.reading
                        Measure._calculate_beta_divergence fst snd
                        information_measure alpha beta];
    (split; [|split; [|split; [|split; [|split; [|split]]]]]);
    try reflexivity; try (intros _; reflexivity); try discriminate;
    try (intros N; now elim N); try (eexists; reflexivity).
  - destruct HA as (f & ->); [simpl; auto|]. eexists; reflexivity.
  - destruct HB as (f & ->); [simpl; auto|]. eexists; reflexivity.
  - destruct HA as (f & ->); [simpl; auto|].
    destruct HB as (g & ->); [simpl; auto|]. eexists; reflexivity.
  - destruct HA as (f & ->); [simpl; auto|]. eexists; reflexivity.
Qed.

Lemma call_effect_witness :
  fst (Measure.__call__
         (snd (Measure.__call__ example_beta example_batch example_batch))
         example_batch example_batch) =
  fst (Measure.__call__ example_beta example_batch example_batch)
  /\ beta (snd (Measure.__call__ example_beta example_batch example_batch))
     = PyFloat (Fin 2).
Proof.
  assert (H : IM.__init__ "beta_divergence" PyNone (PyFloat (Fin 2)) =
              inr example_beta).
  { rewrite beta_divergence_checks_alpha; reflexivity. }
  pose proof (call_effect "beta_divergence" PyNone (PyFloat (Fin 2))
                example_batch example_batch H) as E.
  cbv zeta in E.
  split; [exact (proj1 (proj2 E))
         | exact (proj1 (proj2 (proj2 (proj2 (proj2 E)))))].
Defined.

End CallFacts.

(** ** Arithmetic on finite values *)

Module FValFacts.

Local Open Scope R_scope.

Lemma Fin_eq (a b : R) : a = b -> Fin a = Fin b.
Proof. intros ->; reflexivity. Qed.

Lemma Rsign_pos (r : R) : 0 < r -> Rsign r = Gt.
Proof.
  intros H. unfold Rsign.
  destruct (total_order_T 0 r) as [[L|E]|G]; [reflexivity | lra | lra].
Qed.

Lemma Rsign_zero (r : R) : r = 0 -> Rsign r = Eq.
Proof.
  intros H. unfold Rsign.
  destruct (total_order_T 0 r) as [[L|E]|G]; [lra | reflexivity | lra].
Qed.

Lemma Rsign_neg (r : R) : r < 0 -> Rsign r = Lt.
Proof.
  intros H. unfold Rsign.
  destruct (total_order_T 0 r) as [[L|E]|G]; [lra | lra | reflexivity].
Qed.

Lemma sqrt_nonneg (r : R) : 0 <= r -> FVal.sqrt (Fin r) = Fin (R_sqrt.sqrt r).
Proof.
  intros [H|H]; simpl.
  - rewrite Rsign_pos by assumption. reflexivity.
  - rewrite Rsign_zero by (symmetry; assumption). reflexivity.
Qed.

Lemma div_nonzero (a b : R) : b <> 0 -> FVal.div (Fin a) (Fin b) = Fin (a / b).
Proof.
  intros H. simpl. destruct (Req_dec_T b 0); [contradiction | reflexivity].
Qed.

Lemma div_zero_zero (a : R) : a = 0 -> FVal.div (Fin a) (Fin 0) = NaN.
Proof.
  intros H. simpl. destruct (Req_dec_T 0 0) as [_|N]; [|now elim N].
  rewrite Rsign_zero by assumption. reflexivity.
Qed.

Lemma log_one : FVal.log (Fin 1) = Fin 0.
Proof.
  simpl. rewrite Rsign_pos by lra. rewrite ln_1. reflexivity.
Qed.




End FValFacts.

(** ** Tensors of finite entries *)

Module TorchFacts.

Import FValFacts.

Local Open Scope R_scope.

Section Map2.
Context {A B C D : Type}.

Lemma map2_diag (f : A -> A -> C) (l : list A) :
  map2 f l l = map (fun x => f x x) l.
Proof. induction l as [|x l IH]; simpl; [reflexivity | now rewrite IH]. Qed.

Lemma map_map2 (g : C -> D) (f : A -> B -> C) (l : list A) (l' : list B) :
  map g (map2 f l l') = map2 (fun x y => g (f x y)) l l'.
Proof.
  revert l'; induction l as [|x l IH]; intros [|y l']; simpl;
    try reflexivity.
  now rewrite IH.
Qed.

Lemma map2_map (f : C -> D -> B) (g : A -> C) (h : A -> D)
  (l l' : list A) :
  map2 f (map g l) (map h l') = map2 (fun x y => f (g x) (h y)) l l'.
Proof.
  revert l'; induction l as [|x l IH]; intros [|y l']; simpl;
    try reflexivity.
  now rewrite IH.
Qed.

Lemma map2_ext_Forall (P : A -> Prop) (Q : B -> Prop)
  (f g : A -> B -> C) (l : list A) (l' : list B) :
  Forall P l -> Forall Q l' ->
  (forall x y, P x -> Q y -> f x y = g x y) ->
  map2 f l l' = map2 g l l'.
Proof.
  intros HP HQ E. revert l' HQ.
  induction HP as [|x l Px HP IH]; intros l' HQ; [reflexivity|].
  destruct HQ as [|y l' Qy HQ]; [reflexivity|].
  simpl. rewrite (E x y Px Qy), (IH l' HQ). reflexivity.
Qed.

Lemma map_ext_Forall (P : A -> Prop) (f g : A -> B) (l : list A) :
  Forall P l -> (forall x, P x -> f x = g x) -> map f l = map g l.
Proof.
  intros HP E. induction HP as [|x l Px HP IH]; [reflexivity|].
  simpl. rewrite (E x Px), IH. reflexivity.
Qed.
End Map2.

Lemma vsum_lift (x : list R) : vsum (lift1 x) = Fin (sumR x).
Proof.
  induction x as [|r x IH]; [reflexivity|].
  unfold vsum, lift1 in *. simpl. rewrite IH. reflexivity.
Qed.

Lemma sumR_zero (x : list R) : Forall (fun r => r = 0) x -> sumR x = 0.
Proof.
  induction 1 as [|r x -> _ IH]; simpl; [reflexivity | rewrite IH; lra].
Qed.

Lemma sumR_nonneg (x : list R) : nonneg x -> 0 <= sumR x.
Proof.
  induction 1 as [|r x Hr _ IH]; simpl; lra.
Qed.

(** A row of zeros has norm zero, for each of the three norms. *)
Lemma vnorm1_zero (x : list R) :
  Forall (fun r => r = 0) x -> vnorm1 (lift1 x) = Fin 0.
Proof.
  intros Z. unfold vnorm1.
  replace (map FVal.abs (lift1 x)) with (lift1 (map Rabs x))
    by (unfold lift1; rewrite !map_map; reflexivity).
  rewrite vsum_lift. apply Fin_eq, sumR_zero.
  apply Forall_map. revert Z. apply Forall_impl. intros r ->. apply Rabs_R0.
Qed.

Lemma vnorm2_zero (x : list R) :
  Forall (fun r => r = 0) x -> vnorm2 (lift1 x) = Fin 0.
Proof.
  intros Z. unfold vnorm2.
  replace (map (fun v => FVal.mul (FVal.abs v) (FVal.abs v)) (lift1 x))
    with (lift1 (map (fun r => Rabs r * Rabs r) x))
    by (unfold lift1; rewrite !map_map; reflexivity).
  rewrite vsum_lift.
  assert (E : sumR (map (fun r => Rabs r * Rabs r) x) = 0).
  { apply sumR_zero, Forall_map. revert Z. apply Forall_impl.
    intros r ->. rewrite Rabs_R0. lra. }
  rewrite E, sqrt_nonneg by lra. apply Fin_eq, sqrt_0.
Qed.

Lemma fold_max_zero (x : list R) (a : R) :
  Forall (fun r => r = 0) x -> a = 0 ->
  fold_left FVal.max (map FVal.abs (lift1 x)) (Fin a) = Fin 0.
Proof.
  intros Z. revert a. induction Z as [|r x -> _ IH]; intros a ->;
    [reflexivity|].
  simpl. apply IH. rewrite Rabs_R0. unfold Rmax.
  destruct (Rle_dec 0 0); reflexivity.
Qed.

Lemma vnorm_inf_zero (x : list R) :
  Forall (fun r => r = 0) x -> vnorm_inf (lift1 x) = Fin 0.
Proof.
  intros Z. unfold vnorm_inf. destruct Z as [|r x -> Z]; [reflexivity|].
  simpl. apply (fold_max_zero Z). apply Rabs_R0.
Qed.

(** The difference of a finite batch with itself. *)
Lemma sub_self (p : list (list R)) :
  ewise2 FVal.sub (lift2 p) (lift2 p) = lift2 (map (map (fun r => r + - r)) p).
Proof.
  unfold ewise2, lift2. rewrite map2_diag, !map_map.
  apply map_ext. intros row. unfold lift1.
  rewrite map2_diag, !map_map. reflexivity.
Qed.

Lemma norm_sub_self (vnorm : tensor1 -> fval) (p : list (list R)) :
  (forall x, Forall (fun r => r = 0) x -> vnorm (lift1 x) = Fin 0) ->
  norm_last vnorm (ewise2 FVal.sub (lift2 p) (lift2 p)) = zeros (lift2 p).
Proof.
  intros Hz. rewrite sub_self. unfold norm_last, lift2, zeros.
  rewrite !map_map. apply map_ext. intros row. apply Hz.
  apply Forall_map, Forall_forall. intros r _. lra.
Qed.

End TorchFacts.

(** ** The measures on distributions *)

Module MeasureFacts.

Import FValFacts TorchFacts CallFacts.

Local Open Scope R_scope.

(** The Fisher-Rao distance is computed sentence by sentence. *)
Lemma fisher_rao_by_row (p q : tensor2) :
  Measure._calculate_fisher_rao_distance p q =
  map2 (fun x y =>
          FVal.mul (Fin 2)
            (FVal.acos
               (FVal.clamp (vsum (map FVal.sqrt (map2 FVal.mul x y))) 0 1)))
    p q.
Proof.
  unfold Measure._calculate_fisher_rao_distance, sum_last, ewise1, ewise2.
  rewrite !map_map2. reflexivity.
Qed.






(** Two distributions with disjoint support are at distance pi. *)
Example fisher_rao_disjoint : fisher_rao_formula [1; 0] [0; 1] = PI.
Proof.
  unfold fisher_rao_formula, sumR. simpl.
  rewrite Rmult_0_r, Rmult_0_l, sqrt_0.
  replace (0 + (0 + 0)) with 0 by lra.
  unfold Rmax, Rmin.
  destruct (Rle_dec 0 0) as [_|N]; [|lra].
  destruct (Rle_dec 0 1) as [_|N]; [|lra].
  rewrite acos_0. lra.
Qed.

(** On a distribution equal to itself the formula gives 0. *)
Lemma fisher_rao_formula_self (x : list R) :
  probability x -> fisher_rao_formula x x = 0.
Proof.
  intros [Hx S]. unfold fisher_rao_formula.
  rewrite map2_diag.
  rewrite (map_ext_Forall (fun r => R_sqrt.sqrt (r * r)) (fun r => r) Hx)
    by (intros r Hr; now apply sqrt_square).
  rewrite map_id, S.
  unfold Rmax, Rmin.
  destruct (Rle_dec 1 0) as [N|_]; [lra|].
  destruct (Rle_dec 1 1) as [_|N]; [|lra].
  rewrite acos_1. lra.
Qed.

Lemma kl_row_self (x : list R) :
  positive x ->
  vsum (map2 FVal.mul (lift1 x)
          (map FVal.log (map2 FVal.div (lift1 x) (lift1 x)))) = Fin 0.
Proof.
  induction 1 as [|r x Hr _ IH]; [reflexivity|].
  unfold vsum, lift1 in *. cbn [map map2 fold_right]. rewrite IH.
  rewrite div_nonzero by lra.
  replace (r / r) with 1 by (field; lra).
  rewrite log_one. cbn [FVal.mul FVal.add]. apply Fin_eq. lra.
Qed.

(** Without strict positivity the KL divergence of a distribution with
    itself is not 0: a zero entry gives 0 / 0. *)
Example kl_self_with_zero_entry :
  Measure._calculate_kl_divergence (lift2 [[1; 0]]) (lift2 [[1; 0]]) = [NaN].
Proof.
  unfold Measure._calculate_kl_divergence, sum_last, ewise1, ewise2, vsum.
  cbn [lift2 lift1 map map2 fold_right].
  rewrite (div_zero_zero (a := 0)) by reflexivity.
  rewrite div_nonzero by lra.
  replace (1 / 1) with 1 by lra. rewrite log_one. reflexivity.
Qed.

(** Two distributions with disjoint support are at L1 distance 2. *)
Example l1_disjoint :
  Measure._calculate_l1_distance (lift2 [[1; 0]]) (lift2 [[0; 1]]) = [Fin 2].
Proof.
  unfold Measure._calculate_l1_distance, norm_last, vnorm1, ewise2, vsum.
  cbn [lift2 lift1 map map2 fold_right FVal.sub FVal.neg FVal.add FVal.abs].
  f_equal. apply Fin_eq.
  unfold Rabs. repeat destruct Rcase_abs; lra.
Qed.

Lemma zeros_lift2 (p : list (list R)) : zeros (lift2 p) = zeros p.
Proof. unfold zeros, lift2. apply map_map. Qed.

End MeasureFacts.

(** ** The aggregator *)

Module AggregatorFacts.

Import FValFacts TorchFacts.

Local Open Scope R_scope.

(** *** Lists by index *)

Lemma list_by_index {A} (d : A) (l : list A) :
  l = map (fun i => nth i l d) (seq 0 (List.length l)).
Proof.
  induction l as [|x l IH]; [reflexivity|].
  simpl. f_equal. rewrite <- seq_shift, map_map. exact IH.
Qed.

Lemma nth_map_seq {A} (f : nat -> A) (d : A) (n i : nat) :
  (i < n)%nat -> nth i (map f (seq 0 n)) d = f i.
Proof.
  intros H. rewrite (nth_indep _ d (f 0%nat)) by now rewrite length_map, length_seq.
  rewrite (map_nth f (seq 0 n) 0%nat i), seq_nth by assumption. reflexivity.
Qed.

Lemma map2_length {A B C} (f : A -> B -> C) (l : list A) (l' : list B) :
  List.length l = List.length l' ->
  List.length (map2 f l l') = List.length l.
Proof.
  revert l'; induction l as [|x l IH]; intros [|y l'] H; simpl in *;
    try reflexivity; try discriminate.
  f_equal. apply IH. now injection H.
Qed.

Lemma nth_map2 {A B C} (f : A -> B -> C) (l : list A) (l' : list B)
  (a : A) (b : B) (c : C) (i : nat) :
  (i < List.length l)%nat -> (i < List.length l')%nat ->
  nth i (map2 f l l') c = f (nth i l a) (nth i l' b).
Proof.
  revert l l'. induction i as [|i IH]; intros [|x l] [|y l'] H H'; simpl in *;
    try lia; try reflexivity.
  apply IH; lia.
Qed.

Lemma map2_same {I A B C} (f : A -> B -> C) (g : I -> A) (h : I -> B)
  (l : list I) :
  map2 f (map g l) (map h l) = map (fun i => f (g i) (h i)) l.
Proof. rewrite map2_map. apply map2_diag. Qed.

(** *** The shape of the computation *)

(** Concatenating along the sequence axis the per-position distributions
    [dist 0], ..., [dist n] of a batch of [size] sentences. *)
Lemma cat_positions (dist : nat -> tensor2) (size n : nat) :
  (forall s, List.length (dist s) = size) ->
  fold_left (map2 (@app tensor1))
    (map (fun s => Aggregator.unsqueeze1 (dist s)) (seq 1 n))
    (Aggregator.unsqueeze1 (dist 0%nat)) =
  map (fun b => map (fun s => nth b (dist s) []) (seq 0 (S n))) (seq 0 size).
Proof.
  intros L. induction n as [|n IH].
  - simpl. unfold Aggregator.unsqueeze1.
    rewrite (list_by_index [] (dist 0%nat)) at 1. rewrite L, map_map.
    reflexivity.
  - rewrite (seq_S n 1%nat), map_app, fold_left_app.
    etransitivity; [apply (f_equal (fold_left _ _)); exact IH|].
    cbn [map fold_left].
    unfold Aggregator.unsqueeze1.
    rewrite (list_by_index [] (dist (1 + n)%nat)) at 1.
    rewrite L, map_map, map2_same.
    apply map_ext. intros b.
    rewrite (seq_S (S n) 0%nat), map_app. reflexivity.
Qed.

Lemma cat_all_positions (dist : nat -> tensor2) (size n : nat) :
  (0 < n)%nat -> (forall s, List.length (dist s) = size) ->
  Aggregator.cat_dim1
    (map (fun s => Aggregator.unsqueeze1 (dist s)) (seq 0 n)) =
  inr (map (fun b => map (fun s => nth b (dist s) []) (seq 0 n))
         (seq 0 size)).
Proof.
  intros Hn L. destruct n as [|n]; [lia|].
  transitivity
    (Aggregator.cat_dim1
       (Aggregator.unsqueeze1 (dist 0%nat)
        :: map (fun s => Aggregator.unsqueeze1 (dist s)) (seq 1 n)));
    [reflexivity|].
  unfold Aggregator.cat_dim1, ret. f_equal. now apply cat_positions.
Qed.

Lemma token_mask_pointwise (ids : list (list Z)) (pad sep cls : Z) :
  Aggregator._get_token_mask ids pad sep cls =
  map (map (is_special pad sep cls)) ids.
Proof.
  unfold Aggregator._get_token_mask, Aggregator.tensor_or,
    Aggregator.tensor_eq.
  rewrite !map2_same. apply map_ext. intros row.
  rewrite !map2_same. reflexivity.
Qed.

Lemma shape1_rectangular {A} (x : list (list A)) (n m : nat) :
  rectangular x n m -> (0 < n)%nat -> Aggregator.shape1 x = m.
Proof.
  intros [L R] Hn. destruct x as [|row x]; simpl in *; [lia|].
  now inversion R.
Qed.

Section Shape.
Variable model : language_model.
Variable data : batch.
Variable temperature : fval.
Variable idf : bool.
Variable special_tokens_map : special_tokens.
Variables size seq_len : nat.

Let dist (s : nat) : tensor2 :=
  Aggregator.position_distribution model data temperature
    special_tokens_map s.

Let mask_row (b : nat) : list bool :=
  map (is_special (pad_token_id special_tokens_map)
         (sep_token_id special_tokens_map)
         (cls_token_id special_tokens_map))
    (nth b (input_ids data) []).

Hypothesis ids_shape : rectangular (input_ids data) size seq_len.
Hypothesis some_sentence : (0 < size)%nat.
Hypothesis some_position : (0 < seq_len)%nat.
Hypothesis dist_size : forall s, List.length (dist s) = size.

(** Sentence [b] of the result is computed from the distributions of the
    positions of sentence [b] and from row [b] of the token mask. *)
Lemma batch_distribution_by_row :
  Aggregator._get_batch_distribution model data temperature idf
    special_tokens_map =
  inr (map (fun b =>
              aggregate_row
                (map (fun s => nth b (dist s) []) (seq 0 seq_len))
                (mask_row b))
         (seq 0 size)).
Proof.
  unfold Aggregator._get_batch_distribution.
  rewrite (shape1_rectangular ids_shape some_sentence).
  pose proof (cat_all_positions dist some_position dist_size) as C.
  unfold dist in C; cbv beta in C. rewrite C. clear C.
  unfold bind, ret. f_equal.
  rewrite token_mask_pointwise.
  rewrite (list_by_index [] (input_ids data)) at 1 2.
  rewrite (proj1 ids_shape), !map_map.
  unfold Aggregator.einsum_bsv_bs, Aggregator.sum_dim1,
    Aggregator.mask_sum_dim1, Aggregator.div_rows.
  rewrite map2_same, !map_map, map2_same. reflexivity.
Qed.
End Shape.

(** *** One sentence *)

Lemma count_true_nonneg (m : list bool) : (0 <= Aggregator.count_true m)%Z.
Proof.
  induction m as [|b m IH]; simpl; [lia|]. destruct b; lia.
Qed.

Lemma count_true_zero (m : list bool) :
  Aggregator.count_true m = 0%Z -> Forall (fun b => b = false) m.
Proof.
  induction m as [|b m IH]; simpl; intros H; constructor.
  - pose proof (count_true_nonneg m). destruct b; [lia | reflexivity].
  - apply IH. pose proof (count_true_nonneg m). destruct b; lia.
Qed.

Lemma mask_rows_lift (ds : list (list R)) (m : list bool) :
  map2 (fun dist mk => map (fun v => FVal.mul v (of_bool mk)) dist)
    (map lift1 ds) m =
  map lift1 (map2 (fun d mk => map (fun x => x * b2r mk) d) ds m).
Proof.
  revert m. induction ds as [|d ds IH]; intros [|mk m]; simpl;
    try reflexivity.
  rewrite IH. f_equal. unfold lift1. rewrite !map_map. reflexivity.
Qed.

Lemma add_rows_lift (r r' : list R) :
  map2 FVal.add (lift1 r) (lift1 r') = lift1 (map2 Rplus r r').
Proof.
  unfold lift1. rewrite map2_map, map_map2. reflexivity.
Qed.

Lemma fold_add_rows_lift (rest : list (list R)) (r : list R) :
  fold_left (map2 FVal.add) (map lift1 rest) (lift1 r) =
  lift1 (fold_left (map2 Rplus) rest r).
Proof.
  revert r. induction rest as [|a rest IH]; intros r; simpl;
    [reflexivity|].
  rewrite add_rows_lift. apply IH.
Qed.

(** The sum of rows of the same length, entry by entry. *)
Lemma fold_add_rows_entries (v : nat) (rest : list (list R)) (r : list R) :
  List.length r = v -> Forall (fun x => List.length x = v) rest ->
  fold_left (map2 Rplus) rest r =
  map (fun i => nth i r 0 + sumR (map (fun x => nth i x 0) rest)) (seq 0 v).
Proof.
  intros Lr Lrest. revert r Lr.
  induction Lrest as [|a rest La _ IH]; intros r Lr.
  - simpl. rewrite (list_by_index 0 r) at 1. rewrite Lr.
    apply map_ext. intros i. lra.
  - cbn [fold_left]. rewrite IH by (rewrite map2_length; congruence).
    apply map_ext_in. intros i Hi. apply in_seq in Hi.
    rewrite (nth_map2 Rplus r a 0 0) by lia. simpl. lra.
Qed.

Section Row.
Variable v : nat.
Variable ds : list (list R).
Variable m : list bool.
Hypothesis some_position : ds <> [].
Hypothesis ds_length : Forall (fun d => List.length d = v) ds.
Hypothesis m_length : List.length m = List.length ds.

Lemma masked_sum_entries :
  Aggregator.sum_rows
    (map2 (fun dist mk => map (fun x => FVal.mul x (of_bool mk)) dist)
       (map lift1 ds) m) =
  lift1 (map (fun i =>
                sumR (map2 (fun dist mk => nth i dist 0 * b2r mk) ds m))
           (seq 0 v)).
Proof.
  rewrite mask_rows_lift.
  destruct ds as [|d ds']; [congruence|].
  destruct m as [|mk m']; [discriminate|].
  cbn [map2 map Aggregator.sum_rows].
  change (map (fun x => Fin x) (map (fun x => x * b2r mk) d))
    with (lift1 (map (fun x => x * b2r mk) d)).
  rewrite fold_add_rows_lift. f_equal.
  inversion ds_length as [|d0 ds0 Ld Lds]; subst.
  simpl in m_length.
  rewrite (@fold_add_rows_entries (List.length d));
    [| now rewrite length_map |].
  - apply map_ext_in. intros i Hi. apply in_seq in Hi.
    cbn [sumR fold_right]. f_equal.
    + rewrite (nth_indep _ 0 (0 * b2r mk))
        by (rewrite length_map; lia).
      exact (map_nth (fun x => x * b2r mk) d 0 i).
    + fold (sumR (map (fun x => nth i x 0)
               (map2 (fun d0 mk0 => map (fun x => x * b2r mk0) d0) ds' m'))).
      fold (sumR (map2 (fun dist mk0 => nth i dist 0 * b2r mk0) ds' m')).
      f_equal. rewrite map_map2.
      apply (map2_ext_Forall (Q := fun _ : bool => True) _ _ Lds).
      * apply Forall_forall. auto.
      * intros d0 mk0 L0 _.
        rewrite (nth_indep _ 0 (0 * b2r mk0))
          by (rewrite length_map; lia).
        exact (map_nth (fun x => x * b2r mk0) d0 0 i).
  - clear -Lds. revert m'. induction Lds as [|d0 ds0 L0 _ IH];
      intros [|mk0 m0]; simpl; constructor.
    + now rewrite length_map.
    + apply IH.
Qed.

Lemma aggregate_row_mean :
  Aggregator.count_true m <> 0%Z ->
  aggregate_row (map lift1 ds) m = lift1 (masked_mean v ds m).
Proof.
  intros Hc. unfold aggregate_row. rewrite masked_sum_entries.
  unfold lift1, masked_mean. rewrite !map_map.
  apply map_ext. intros i. apply div_nonzero. now apply not_0_IZR.
Qed.

Lemma aggregate_row_nan :
  Aggregator.count_true m = 0%Z ->
  aggregate_row (map lift1 ds) m = repeat NaN v.
Proof.
  intros Hc. unfold aggregate_row. rewrite masked_sum_entries, Hc.
  unfold lift1. rewrite !map_map.
  rewrite (map_ext _ (fun _ => NaN)).
  - clear. generalize 0%nat. induction v as [|n IH]; intros k; simpl;
      [reflexivity | now rewrite IH].
  - intros i. apply div_zero_zero. apply sumR_zero.
    pose proof (count_true_zero _ Hc) as F. clear -F.
    revert ds. induction F as [|mk m' -> _ IH]; intros [|d ds']; simpl;
      constructor; [unfold b2r; lra | apply IH].
Qed.
End Row.

(** *** The distributions of the positions *)

Lemma finite_lift (d : tensor1) : Forall is_finite d -> d = lift1 (map to_R d).
Proof.
  induction 1 as [|x d Hx _ IH]; [reflexivity|].
  simpl. rewrite <- IH. destruct x; try contradiction. reflexivity.
Qed.

Lemma to_R_lift (xs : list R) : map to_R (lift1 xs) = xs.
Proof.
  unfold lift1. rewrite map_map. apply map_id.
Qed.

Lemma sumR_exp_pos (xs : list R) : xs <> [] -> 0 < sumR (map Rtrigo_def.exp xs).
Proof.
  intros N. destruct xs as [|x xs]; [congruence|]. clear N. simpl.
  assert (P : 0 <= sumR (map Rtrigo_def.exp xs)).
  { apply sumR_nonneg, Forall_map, Forall_forall. intros y _.
    left. apply exp_pos. }
  pose proof (exp_pos x). lra.
Qed.

Lemma softmax_row_lift (xs : list R) :
  xs <> [] ->
  Aggregator.softmax_row (lift1 xs) =
  lift1 (map (fun x => Rtrigo_def.exp x / sumR (map Rtrigo_def.exp xs)) xs).
Proof.
  intros N. unfold Aggregator.softmax_row.
  replace (map FVal.exp (lift1 xs)) with (lift1 (map Rtrigo_def.exp xs))
    by (unfold lift1; rewrite !map_map; reflexivity).
  rewrite vsum_lift. unfold lift1. rewrite !map_map.
  apply map_ext. intros x. apply div_nonzero.
  pose proof (sumR_exp_pos N). lra.
Qed.

Lemma set_item_length {A} (row : list A) (idx : nat) (v : A) :
  List.length (Aggregator.set_item row idx v) = List.length row.
Proof.
  revert idx. induction row as [|x row IH]; intros [|idx]; simpl;
    try reflexivity.
  now rewrite IH.
Qed.

Lemma set_column_rectangular {A} (x : list (list A)) (idx : nat) (v : A)
  (n m : nat) :
  rectangular x n m -> rectangular (Aggregator.set_column x idx v) n m.
Proof.
  intros [L R]. split.
  - unfold Aggregator.set_column. now rewrite length_map.
  - unfold Aggregator.set_column. apply Forall_map.
    revert R. apply Forall_impl. intros row <-. apply set_item_length.
Qed.

Section Batch.
Variable model : language_model.
Variable data : batch.
Variable t : R.
Variable idf : bool.
Variable special_tokens_map : special_tokens.
Variables size seq_len vocab : nat.

Let dist (s : nat) : tensor2 :=
  Aggregator.position_distribution model data (Fin t)
    special_tokens_map s.

Let token_mask : list (list bool) :=
  Aggregator._get_token_mask (input_ids data)
    (pad_token_id special_tokens_map)
    (sep_token_id special_tokens_map)
    (cls_token_id special_tokens_map).

Hypothesis ids_shape : rectangular (input_ids data) size seq_len.
Hypothesis model_finite :
  forall ids, rectangular ids size seq_len ->
  finite_logits (model ids (attention_mask data)) size seq_len vocab.
Hypothesis some_position : (0 < seq_len)%nat.
Hypothesis some_token : (0 < vocab)%nat.
Hypothesis temperature_nonzero : t <> 0.

Lemma dist_size (s : nat) : List.length (dist s) = size.
Proof.
  unfold dist, Aggregator.position_distribution, Aggregator.softmax,
    ewise1, Aggregator.select_dim1.
  rewrite !length_map.
  apply (model_finite (set_column_rectangular _ _ ids_shape)).
Qed.

Lemma dist_row_finite (b s : nat) :
  (b < size)%nat -> (s < seq_len)%nat ->
  exists ps, nth b (dist s) [] = lift1 ps /\ List.length ps = vocab.
Proof.
  intros Hb Hs.
  destruct (model_finite
              (set_column_rectangular s (mask_token_id special_tokens_map)
                 ids_shape)) as [L F].
  unfold dist, Aggregator.position_distribution, Aggregator.softmax,
    ewise1, Aggregator.select_dim1.
  set (logits := model _ _) in *.
  rewrite !map_map.
  rewrite (nth_indep _ []
             ((fun row => Aggregator.softmax_row
                 (map (fun v => FVal.div v (Fin t)) (nth s row [])))
                []))
    by (rewrite length_map; lia).
  rewrite (map_nth (fun row => Aggregator.softmax_row
                 (map (fun v => FVal.div v (Fin t)) (nth s row [])))).
  assert (Hrow : In (nth b logits []) logits) by (apply nth_In; lia).
  destruct (proj1 (Forall_forall _ _) F _ Hrow) as [Ls Fs].
  assert (Hd : In (nth s (nth b logits []) []) (nth b logits []))
    by (apply nth_In; lia).
  destruct (proj1 (Forall_forall _ _) Fs _ Hd) as [Lv Fv].
  rewrite (finite_lift Fv).
  set (ls := map to_R (nth s (nth b logits []) [])).
  assert (Lls : List.length ls = vocab)
    by (unfold ls; now rewrite length_map).
  replace (map (fun v => FVal.div v (Fin t)) (lift1 ls))
    with (lift1 (map (fun x => x / t) ls)).
  2:{ unfold lift1. rewrite !map_map. apply map_ext. intros x.
      symmetry. now apply div_nonzero. }
  rewrite softmax_row_lift.
  - eexists. split; [reflexivity|]. now rewrite !length_map.
  - intros E. apply (f_equal (@List.length R)) in E.
    rewrite length_map in E. simpl in E. lia.
Qed.

Hypothesis some_sentence : (0 < size)%nat.

Lemma token_mask_row (b : nat) :
  nth b token_mask [] =
  map (is_special (pad_token_id special_tokens_map)
         (sep_token_id special_tokens_map)
         (cls_token_id special_tokens_map))
    (nth b (input_ids data) []).
Proof.
  unfold token_mask. rewrite token_mask_pointwise.
  exact (map_nth (map (is_special _ _ _)) (input_ids data) [] b).
Qed.

Lemma token_mask_row_length (b : nat) :
  (b < size)%nat -> List.length (nth b token_mask []) = seq_len.
Proof.
  intros Hb. rewrite token_mask_row, length_map.
  destruct ids_shape as [L F].
  apply (proj1 (Forall_forall _ _) F). apply nth_In. lia.
Qed.

(** The distributions of the positions of sentence [b], as reals. *)
Lemma dist_rows_lift (b : nat) :
  (b < size)%nat ->
  map (fun s => nth b (dist s) []) (seq 0 seq_len) =
  map lift1 (map (fun s => map to_R (nth b (dist s) [])) (seq 0 seq_len))
  /\ Forall (fun d => List.length d = vocab)
       (map (fun s => map to_R (nth b (dist s) [])) (seq 0 seq_len)).
Proof.
  intros Hb. split.
  - rewrite map_map. apply map_ext_in. intros s Hs. apply in_seq in Hs.
    destruct (@dist_row_finite b s) as (ps & E & _); [lia | lia |].
    rewrite E, to_R_lift. reflexivity.
  - apply Forall_map, Forall_forall. intros s Hs. apply in_seq in Hs.
    destruct (@dist_row_finite b s) as (ps & E & L); [lia | lia |].
    rewrite E, to_R_lift. exact L.
Qed.

(** Every sentence of the batch, by its row of the token mask. *)
Lemma batch_distribution_rows :
  exists out,
    Aggregator._get_batch_distribution model data (Fin t) idf
      special_tokens_map = inr out
    /\ List.length out = size
    /\ forall b, (b < size)%nat ->
       (Aggregator.count_true (nth b token_mask []) = 0%Z ->
        nth b out [] = repeat NaN vocab)
       /\ (Aggregator.count_true (nth b token_mask []) <> 0%Z ->
           nth b out [] =
           lift1 (masked_mean vocab
                    (map (fun s => map to_R (nth b (dist s) []))
                       (seq 0 seq_len))
                    (nth b token_mask []))).
Proof.
  eexists. split; [|split].
  - exact (@batch_distribution_by_row model data (Fin t) idf
             special_tokens_map size seq_len ids_shape some_sentence
             some_position dist_size).
  - now rewrite length_map, length_seq.
  - intros b Hb. rewrite nth_map_seq by assumption.
    rewrite <- token_mask_row.
    destruct (dist_rows_lift Hb) as [E F].
    unfold dist in E, F |- *. cbv beta in E, F |- *. rewrite E.
    match type of F with Forall _ ?l => set (ds := l) in * end.
    assert (N : ds <> []).
    { unfold ds. intros Z. apply (f_equal (@List.length _)) in Z.
      rewrite length_map, length_seq in Z. simpl in Z. lia. }
    assert (Lm : List.length (nth b token_mask []) = List.length ds).
    { rewrite token_mask_row_length by assumption.
      unfold ds. now rewrite length_map, length_seq. }
    split; intros Hc.
    + now apply aggregate_row_nan.
    + now apply aggregate_row_mean.
Qed.
End Batch.

(** *** The claims on the aggregator *)

(** C1: the token mask is true exactly at the positions that hold the pad,
    the sep or the cls token, and false at every other position; on the
    sentence [cls, 2023, sep, pad] it is true at the three special tokens and
    false at the content token. *)
Theorem token_mask_true_at_special_tokens :
  (forall ids pad sep cls,
     Aggregator._get_token_mask ids pad sep cls =
     map (map (is_special pad sep cls)) ids)
  /\ Aggregator._get_token_mask [[101; 2023; 102; 0]%Z] 0 102 101 =
     [[true; false; true; true]].
Proof.
  split; [exact token_mask_pointwise | reflexivity].
Qed.


Lemma flat_model_finite (ids : list (list Z)) (am : list (list Z)) :
  rectangular ids 2 2 -> finite_logits (flat_model ids am) 2 2 2.
Proof.
  intros [L F]. unfold flat_model. split; [now rewrite length_map|].
  apply Forall_map. revert F. apply Forall_impl. intros row Lr.
  split; [now rewrite length_map|].
  apply Forall_map, Forall_forall. intros id _.
  split; [reflexivity | repeat constructor].
Defined.


End AggregatorFacts.

(** ** More on the constructor *)

Module InitMore.

Import IMEnumFacts InitFacts.

(** X1: for the Renyi divergence alpha must be a float (anything else is
    refused with the parameter-undefined error) different from 1 (refused
    with the excluded-value error); every other float, 0.0 included, is
    accepted, whatever beta is. *)
Theorem renyi_divergence_validation (name : string) (beta : pyval) :
  IMEnum.from_str name = inr RENYI_DIVERGENCE ->
  (forall a, isinstance_float a = false ->
     IM.__init__ name a beta =
       inl (ValueError (IM.alpha_undefined_msg name)))
  /\ (forall f, float_is f 1 = true ->
        IM.__init__ name (PyFloat f) beta =
          inl (ValueError (IM.alpha_1_msg name)))
  /\ (forall f, float_is f 1 = false ->
        IM.__init__ name (PyFloat f) beta =
          inr (Build_IM RENYI_DIVERGENCE (PyFloat f) beta)).
Proof.
  intros H. split; [|split].
  - intros a F. destruct a; try discriminate F; init_eval H; reflexivity.
  - intros f F. init_eval H. fold (float_is f 1). rewrite F. reflexivity.
  - intros f F. init_eval H. fold (float_is f 1). rewrite F. reflexivity.
Qed.

Lemma renyi_divergence_validation_witness :
  IM.__init__ "renyi_divergence" (PyFloat (Fin 1)) PyNone =
    inl (ValueError (IM.alpha_1_msg "renyi_divergence"))
  /\ IM.__init__ "renyi_divergence" (PyFloat (Fin 0)) PyNone =
       inr (Build_IM RENYI_DIVERGENCE (PyFloat (Fin 0)) PyNone).
Proof.
  pose proof (renyi_divergence_validation "renyi_divergence" PyNone eq_refl)
    as H.
  split.
  - apply (proj1 (proj2 H)). apply float_is_Fin_true. reflexivity.
  - apply (proj2 (proj2 H)). apply float_is_Fin_false.
    apply eq_IZR_contrapositive. discriminate.
Defined.

(** X2: the kinds that read no parameter (KL divergence, L1, L2, L-infinity
    and Fisher-Rao distance) are constructed for any alpha and beta, of any
    type, and store them as given. *)
Theorem parameter_free_kinds_accept_anything
  (name : string) (kind : _IMEnum) (a b : pyval) :
  IMEnum.from_str name = inr kind ->
  In kind [KL_DIVERGENCE; L1_DISTANCE; L2_DISTANCE; L_INFINITY_DISTANCE;
           FISHER_RAO_DISTANCE] ->
  IM.__init__ name a b = inr (Build_IM kind a b).
Proof.
  intros H [<-|[<-|[<-|[<-|[<-|[]]]]]]; init_eval H; reflexivity.
Qed.

Lemma parameter_free_kinds_accept_anything_witness :
  IM.__init__ "l2_distance" (PyInt 3) PyNone =
  inr (Build_IM L2_DISTANCE (PyInt 3) PyNone).
Proof.
  apply (@parameter_free_kinds_accept_anything "l2_distance" L2_DISTANCE
           (PyInt 3) PyNone eq_refl).
  simpl. auto.
Defined.

Ltac split_flags :=
  repeat match goal with
    | |- context [FVal.eqb ?f (of_Z ?z)] =>
        change (FVal.eqb f (of_Z z)) with (float_is f z)
    end;
  repeat match goal with
    | |- context [float_is ?f ?z] =>
        let E := fresh "E" in destruct (float_is f z) eqn:E
    end.

(** The parameters of a constructed instance have passed the checks of its
    kind. *)
Lemma init_valid (name : string) (a b : pyval) (im : _InformationMeasure) :
  IM.__init__ name a b = inr im ->
  valid_parameters (information_measure im) a b.
Proof.
  intros H. destruct (init_inv _ _ _ H) as (Hk & Ha & Hb).
  destruct im as [kind al be]; cbn [information_measure] in *.
  revert H.
  destruct kind; cbn [valid_parameters]; try (intros _; exact I).
  1, 3, 4:
    destruct a as [|x|f]; destruct b as [|y|g]; init_eval Hk;
    split_flags; cbn; try discriminate; intros _; eauto 10.
  destruct b as [|y|g]; [init_eval Hk; discriminate
                        | init_eval Hk; discriminate |].
  rewrite (@beta_divergence_checks_alpha name a g Hk).
  destruct (py_in a [PyInt 0; PyInt (-1)]); [discriminate|].
  intros _. split; [now exists g | reflexivity].
Qed.

(** X3: the constructor returns an instance exactly when the name is
    recognized and the parameters pass the checks of its kind; the instance
    then holds that kind and the two parameters as they were given. *)
Theorem construction_succeeds_iff
  (name : string) (a b : pyval) (im : _InformationMeasure) :
  IM.__init__ name a b = inr im <->
  IMEnum.from_str name = inr (information_measure im)
  /\ alpha im = a /\ beta im = b
  /\ valid_parameters (information_measure im) a b.
Proof.
  split.
  - intros H. destruct (init_inv _ _ _ H) as (Hk & Ha & Hb).
    split; [exact Hk | split; [exact Ha | split; [exact Hb|]]].
    now apply init_valid with (name := name).
  - intros (Hk & Ha & Hb & V).
    destruct im as [kind al be]; cbn [information_measure alpha beta] in *.
    subst al be.
    destruct kind; cbn [valid_parameters] in V.
    all: try (init_eval Hk; reflexivity).
    + destruct V as (f & -> & E0 & E1). init_eval Hk.
      fold (float_is f 0) (float_is f 1). rewrite E0, E1. reflexivity.
    + destruct V as ((g & ->) & E). init_eval Hk.
      cbn [py_in existsb] in E. rewrite E. reflexivity.
    + destruct V as (f & g & -> & -> & E0 & E1 & E2). init_eval Hk.
      fold (float_is f 0) (float_is g 0) (float_is (FVal.add f g) 0).
      rewrite E0, E1, E2. reflexivity.
    + destruct V as (f & -> & E1). init_eval Hk.
      fold (float_is f 1). rewrite E1. reflexivity.
Qed.

Lemma construction_succeeds_iff_witness :
  IM.__init__ "alpha_divergence" (PyFloat (Fin 2)) PyNone =
  inr (Build_IM ALPHA_DIVERGENCE (PyFloat (Fin 2)) PyNone).
Proof.
  apply (proj2 (construction_succeeds_iff "alpha_divergence" (PyFloat (Fin 2))
                  PyNone (Build_IM ALPHA_DIVERGENCE (PyFloat (Fin 2)) PyNone))).
  split; [reflexivity | split; [reflexivity | split; [reflexivity|]]].
  exists (Fin 2). split; [reflexivity|].
  split; apply float_is_Fin_false; apply eq_IZR_contrapositive; discriminate.
Defined.

Lemma lower_char_idempotent (c : ascii) :
  lower_char (lower_char c) = lower_char c.
Proof.
  destruct c as [[] [] [] [] [] [] [] []]; reflexivity.
Qed.

Lemma lower_idempotent (s : string) : lower (lower s) = lower s.
Proof.
  induction s as [|c s IH]; [reflexivity|].
  simpl. now rewrite lower_char_idempotent, IH.
Qed.

Lemma from_str_depends_on_lower (s s' : string) :
  lower s = lower s' -> IMEnum.from_str s = IMEnum.from_str s'.
Proof.
  intros E. unfold IMEnum.from_str.
  rewrite !from_str_loop_find, E. reflexivity.
Qed.

(** X4: looking up the value of a member gives the member back; the lookup
    depends on its argument only up to case; and a lookup that succeeds
    returns the member whose value is the lower-cased argument. *)
Theorem from_str_round_trip (s : string) (m : _IMEnum) :
  IMEnum.from_str (IMEnum.value m) = inr m
  /\ IMEnum.from_str (lower s) = IMEnum.from_str s
  /\ (IMEnum.from_str s = inr m -> IMEnum.value m = lower s).
Proof.
  split; [|split].
  - apply from_str_match, value_lower.
  - apply from_str_depends_on_lower, lower_idempotent.
  - intros H. symmetry. now apply from_str_inv.
Qed.

Lemma from_str_round_trip_witness :
  IMEnum.value L1_DISTANCE = lower "L1_Distance".
Proof.
  apply (proj2 (proj2 (from_str_round_trip "L1_Distance" L1_DISTANCE))).
  reflexivity.
Defined.

(** X5: the tuple quoted by the unrecognized-measure error lists the value
    of every member but those of the AB and the Renyi divergence; in their
    place it lists the two names run together, which the lookup refuses. *)
Theorem allowed_measures_miss_two_kinds (m : _IMEnum) :
  (In (IMEnum.value m) _ALLOWED_INFORMATION_MEASURE <->
   m <> AB_DIVERGENCE /\ m <> RENYI_DIVERGENCE)
  /\ In ("ab_divergence" ++ "renyi_divergence") _ALLOWED_INFORMATION_MEASURE
  /\ IMEnum.from_str ("ab_divergence" ++ "renyi_divergence") =
     inl (ValueError IMEnum.invalid_measure_msg).
Proof.
  split; [|split].
  - split.
    + intros H. destruct m; (split; [discriminate|discriminate]) || exfalso;
        cbn in H; repeat (destruct H as [H|H]; [discriminate H|]); exact H.
    + intros [N1 N2]. destruct m; try congruence; cbn; tauto.
  - cbn. tauto.
  - reflexivity.
Qed.

End InitMore.

(** ** More on the measures *)

Module MeasureMore.

Import FValFacts TorchFacts InitFacts InitMore CallFacts MeasureFacts AggregatorFacts.

Local Open Scope R_scope.

(** *** Symmetry *)

Lemma abs_sub_swap (x y : fval) :
  FVal.abs (FVal.sub x y) = FVal.abs (FVal.sub y x).
Proof.
  destruct x as [a| | |], y as [b| | |]; try reflexivity.
  cbn. apply Fin_eq.
  replace (b + - a) with (- (a + - b)) by lra. symmetry. apply Rabs_Ropp.
Qed.

Lemma mul_swap (x y : fval) : FVal.mul x y = FVal.mul y x.
Proof.
  destruct x as [a| | |], y as [b| | |]; try reflexivity.
  cbn. apply Fin_eq. lra.
Qed.

Lemma map2_swap {A B} (f : A -> A -> B) (x y : list A) :
  (forall a b, f a b = f b a) -> map2 f x y = map2 f y x.
Proof.
  intros C. revert y. induction x as [|a x IH]; intros [|b y]; simpl;
    try reflexivity.
  now rewrite C, IH.
Qed.

Lemma abs_diff_swap (x y : tensor1) :
  map FVal.abs (map2 FVal.sub x y) = map FVal.abs (map2 FVal.sub y x).
Proof.
  rewrite !map_map2. apply map2_swap. intros a b. apply abs_sub_swap.
Qed.

(** Each norm looks at the absolute values of the entries only. *)
Lemma vnorm_abs (x y : tensor1) :
  map FVal.abs x = map FVal.abs y ->
  vnorm1 x = vnorm1 y /\ vnorm2 x = vnorm2 y /\ vnorm_inf x = vnorm_inf y.
Proof.
  intros E. unfold vnorm1, vnorm2, vnorm_inf.
  rewrite <- !(map_map FVal.abs (fun a => FVal.mul a a)), E. auto.
Qed.

Lemma norm_diff_swap (vnorm : tensor1 -> fval) (p q : tensor2) :
  (forall x y, map FVal.abs x = map FVal.abs y -> vnorm x = vnorm y) ->
  norm_last vnorm (ewise2 FVal.sub p q) =
  norm_last vnorm (ewise2 FVal.sub q p).
Proof.
  intros V. unfold norm_last, ewise2. rewrite !map_map2.
  apply map2_swap. intros x y. apply V, abs_diff_swap.
Qed.

(** X6: the L1, L2, L-infinity and Fisher-Rao measures are symmetric:
    exchanging the two batches changes neither the scores nor the
    instance. *)
Theorem distances_symmetric (im : _InformationMeasure) (p q : tensor2) :
  In (information_measure im)
    [L1_DISTANCE; L2_DISTANCE; L_INFINITY_DISTANCE; FISHER_RAO_DISTANCE] ->
  Measure.__call__ im p q = Measure.__call__ im q p.
Proof.
  rewrite !call_dispatch.
  intros [<-|[<-|[<-|[<-|[]]]]]; unfold method_of, Measure.static;
    do 2 f_equal.
  - apply norm_diff_swap. intros x y E. apply (vnorm_abs _ _ E).
  - apply norm_diff_swap. intros x y E. apply (vnorm_abs _ _ E).
  - apply norm_diff_swap. intros x y E. apply (vnorm_abs _ _ E).
  - rewrite !fisher_rao_by_row. apply map2_swap. intros x y.
    do 5 f_equal. apply map2_swap, mul_swap.
Qed.

Lemma distances_symmetric_witness :
  Measure.__call__ (Build_IM L1_DISTANCE PyNone PyNone)
    (lift2 [[1; 0]]) (lift2 [[0; 1]]) =
  Measure.__call__ (Build_IM L1_DISTANCE PyNone PyNone)
    (lift2 [[0; 1]]) (lift2 [[1; 0]]).
Proof.
  apply distances_symmetric. simpl. auto.
Defined.

(** *** The distances on finite batches *)

Lemma map2_flip {A B C} (f : A -> B -> C) (x : list A) (y : list B) :
  map2 f x y = map2 (fun b a => f a b) y x.
Proof.
  revert y. induction x as [|a x IH]; intros [|b y]; simpl;
    try reflexivity.
  now rewrite IH.
Qed.

(** The absolute differences of one sentence. *)
Lemma abs_diff_row (x y : list R) :
  map FVal.abs (map2 FVal.sub (lift1 y) (lift1 x)) =
  lift1 (map2 (fun a b => Rabs (b - a)) x y).
Proof.
  unfold lift1. rewrite map2_map, !map_map2, (map2_flip _ x y).
  reflexivity.
Qed.



Lemma l2_row (x y : list R) :
  vnorm2 (map2 FVal.sub (lift1 y) (lift1 x)) = Fin (l2_formula x y).
Proof.
  unfold vnorm2.
  rewrite <- (map_map FVal.abs (fun a => FVal.mul a a)), abs_diff_row.
  replace (map (fun a => FVal.mul a a)
             (lift1 (map2 (fun a b => Rabs (b - a)) x y)))
    with (lift1 (map2 (fun a b => (b - a) * (b - a)) x y)).
  - rewrite vsum_lift, sqrt_nonneg; [reflexivity|].
    apply sumR_nonneg. unfold nonneg. clear.
    revert y. induction x as [|a x IH]; intros [|b y]; simpl; constructor.
    + exact (Rle_0_sqr (b - a)).
    + apply IH.
  - unfold lift1. rewrite !map_map, !map_map2.
    clear. revert y. induction x as [|a x IH]; intros [|b y]; simpl;
      try reflexivity.
    rewrite IH. f_equal. apply Fin_eq.
    unfold Rabs. destruct (Rcase_abs (b - a)); lra.
Qed.

Lemma fold_max_lift (rest : list R) (a : R) :
  fold_left FVal.max (lift1 rest) (Fin a) = Fin (fold_left Rmax rest a).
Proof.
  revert a. induction rest as [|b rest IH]; intros a; [reflexivity|].
  simpl. apply IH.
Qed.

Lemma linf_row (x y : list R) :
  vnorm_inf (map2 FVal.sub (lift1 y) (lift1 x)) = Fin (linf_formula x y).
Proof.
  unfold vnorm_inf, linf_formula. rewrite abs_diff_row.
  destruct (map2 (fun a b => Rabs (b - a)) x y) as [|a rest];
    [reflexivity|].
  apply fold_max_lift.
Qed.

(** A distance computed sentence by sentence on finite batches. *)
Lemma distance_by_row (vnorm : tensor1 -> fval) (formula : list R -> list R -> R)
  (p q : list (list R)) :
  (forall x y, vnorm (map2 FVal.sub (lift1 y) (lift1 x)) = Fin (formula x y)) ->
  norm_last vnorm (ewise2 FVal.sub (lift2 q) (lift2 p)) =
  lift1 (map2 formula p q).
Proof.
  intros V. unfold norm_last, ewise2, lift2, lift1.
  rewrite map2_map, !map_map2, (map2_flip _ q p).
  clear -V. revert q. induction p as [|x p IH]; intros [|y q]; simpl;
    try reflexivity.
  now rewrite V, IH.
Qed.

(** *** The entries of a probability distribution *)

Lemma entry_le_sum (x : list R) :
  nonneg x -> Forall (fun r => r <= sumR x) x.
Proof.
  induction 1 as [|r x Hr Hx IH]; constructor; simpl.
  - pose proof (sumR_nonneg Hx). lra.
  - revert IH. apply Forall_impl. intros s Hs. lra.
Qed.

Lemma probability_entries (x : list R) :
  probability x -> Forall (fun r => 0 <= r <= 1) x.
Proof.
  intros [N S]. pose proof (entry_le_sum N) as L. rewrite S in L.
  unfold nonneg in N. rewrite Forall_forall in *. intros r Hr.
  split; [apply N | apply L]; exact Hr.
Qed.

Lemma Forall_map2 {A B C} (P : A -> Prop) (Q : B -> Prop) (T : C -> Prop)
  (f : A -> B -> C) (x : list A) (y : list B) :
  Forall P x -> Forall Q y -> (forall a b, P a -> Q b -> T (f a b)) ->
  Forall T (map2 f x y).
Proof.
  intros Hx Hy F. revert y Hy.
  induction Hx as [|a x Pa _ IH]; intros y Hy; [constructor|].
  destruct Hy as [|b y Qb Hy]; [constructor|].
  simpl. constructor; [now apply F | now apply IH].
Qed.


Lemma sum_sq_diff_le (x y : list R) :
  Forall (fun r => 0 <= r <= 1) x -> Forall (fun r => 0 <= r <= 1) y ->
  0 <= sumR (map2 (fun a b => (b - a) * (b - a)) x y) <= sumR x + sumR y.
Proof.
  intros Hx. revert y.
  induction Hx as [|a x Ha Hx IH]; intros y Hy.
  - simpl. assert (0 <= sumR y).
    { apply sumR_nonneg. revert Hy. apply Forall_impl. intros r; lra. }
    lra.
  - assert (Nx : 0 <= sumR x).
    { apply sumR_nonneg. revert Hx. apply Forall_impl. intros r; lra. }
    destruct Hy as [|b y Hb Hy]; simpl; [lra|].
    specialize (IH y Hy).
    pose proof (Rle_0_sqr (b - a)) as Q. unfold Rsqr in Q.
    assert (a * a <= a) by nra. assert (b * b <= b) by nra.
    assert (0 <= a * b) by nra.
    assert ((b - a) * (b - a) <= a + b) by nra.
    lra.
Qed.

Lemma l2_range (x y : list R) :
  probability x -> probability y ->
  0 <= l2_formula x y <= R_sqrt.sqrt 2.
Proof.
  intros Px Py. unfold l2_formula.
  pose proof (sum_sq_diff_le (probability_entries Px)
                (probability_entries Py)) as [L U].
  rewrite (proj2 Px), (proj2 Py) in U.
  split; [apply sqrt_pos|]. apply sqrt_le_1_alt. lra.
Qed.

Lemma fold_max_bounds (lo hi : R) (rest : list R) (a : R) :
  lo <= a <= hi -> Forall (fun r => lo <= r <= hi) rest ->
  lo <= fold_left Rmax rest a <= hi.
Proof.
  intros Ha Hr. revert a Ha.
  induction Hr as [|b rest Hb _ IH]; intros a Ha; [exact Ha|].
  simpl. apply IH. unfold Rmax. destruct (Rle_dec a b); lra.
Qed.

Lemma linf_range (x y : list R) :
  probability x -> probability y -> 0 <= linf_formula x y <= 1.
Proof.
  intros Px Py. unfold linf_formula, max_list.
  assert (F : Forall (fun r => 0 <= r <= 1)
                (map2 (fun a b => Rabs (b - a)) x y)).
  { apply (Forall_map2 _ _ (probability_entries Px) (probability_entries Py)).
    intros a b Ha Hb. unfold Rabs. destruct (Rcase_abs (b - a)); lra. }
  destruct F as [|a rest Ha F]; [lra|]. now apply fold_max_bounds.
Qed.

Lemma Forall_map2_formula (T : R -> Prop) (formula : list R -> list R -> R)
  (p q : list (list R)) :
  Forall probability p -> Forall probability q ->
  (forall x y, probability x -> probability y -> T (formula x y)) ->
  Forall T (map2 formula p q).
Proof.
  intros Hp Hq F. now apply (Forall_map2 _ _ Hp Hq).
Qed.


(** X8: on two batches of probability distributions of the same shape the
    L2 measure returns for every sentence the square root of the sum of the
    squared differences of the entries, a number between 0 and the square
    root of 2, and leaves the instance as it was. *)
Theorem l2_distance_formula_and_range
  (p q : list (list R)) (im : _InformationMeasure) :
  same_shape p q -> Forall probability p -> Forall probability q ->
  information_measure im = L2_DISTANCE ->
  Measure.__call__ im (lift2 p) (lift2 q) =
    (inr (lift1 (map2 l2_formula p q)), im)
  /\ Forall (fun d => 0 <= d <= R_sqrt.sqrt 2) (map2 l2_formula p q).
Proof.
  intros _ Hp Hq K. split.
  - rewrite call_dispatch, K. unfold method_of, Measure.static, ret.
    do 2 f_equal. apply distance_by_row, l2_row.
  - apply (Forall_map2_formula _ _ Hp Hq). apply l2_range.
Qed.

(** X9: on two batches of probability distributions of the same shape the
    L-infinity measure returns for every sentence the largest absolute
    difference of two entries, a number between 0 and 1, and leaves the
    instance as it was. *)
Theorem linf_distance_formula_and_range
  (p q : list (list R)) (im : _InformationMeasure) :
  same_shape p q -> Forall probability p -> Forall probability q ->
  information_measure im = L_INFINITY_DISTANCE ->
  Measure.__call__ im (lift2 p) (lift2 q) =
    (inr (lift1 (map2 linf_formula p q)), im)
  /\ Forall (fun d => 0 <= d <= 1) (map2 linf_formula p q).
Proof.
  intros _ Hp Hq K. split.
  - rewrite call_dispatch, K. unfold method_of, Measure.static, ret.
    do 2 f_equal. apply distance_by_row, linf_row.
  - apply (Forall_map2_formula _ _ Hp Hq). apply linf_range.
Qed.

Lemma disjoint_probabilities :
  same_shape [[1; 0]] [[0; 1]]
  /\ Forall probability [[1; 0]] /\ Forall probability [[0; 1]].
Proof.
  split; [repeat constructor|].
  split; repeat constructor; simpl; lra.
Defined.


Lemma l2_distance_formula_and_range_witness :
  Forall (fun d => 0 <= d <= R_sqrt.sqrt 2)
    (map2 l2_formula [[1; 0]] [[0; 1]]).
Proof.
  destruct disjoint_probabilities as (S & Hp & Hq).
  exact (proj2 (l2_distance_formula_and_range
                  (Build_IM L2_DISTANCE PyNone PyNone) S Hp Hq eq_refl)).
Defined.

Lemma linf_distance_formula_and_range_witness :
  Forall (fun d => 0 <= d <= 1) (map2 linf_formula [[1; 0]] [[0; 1]]).
Proof.
  destruct disjoint_probabilities as (S & Hp & Hq).
  exact (proj2 (linf_distance_formula_and_range
                  (Build_IM L_INFINITY_DISTANCE PyNone PyNone) S Hp Hq
                  eq_refl)).
Defined.

(** *** The KL divergence *)







(** *** The divergences with parameters, on a distribution and itself *)

Lemma Rsign_Eq_inv (r : R) : Rsign r = Eq -> r = 0.
Proof.
  unfold Rsign. destruct (total_order_T 0 r) as [[L|E]|G];
    [discriminate | now symmetry | discriminate].
Qed.

(** A power of a positive number. *)
Lemma pow_positive (p a : R) :
  0 < p -> FVal.pow (Fin p) (Fin a) = Fin (Rpower p a).
Proof.
  intros Hp. unfold FVal.pow.
  destruct (Rsign a) eqn:E.
  - apply Rsign_Eq_inv in E. subst a. apply Fin_eq. symmetry.
    now apply Rpower_O.
  - now rewrite Rsign_pos.
  - now rewrite Rsign_pos.
Qed.

Lemma float_is_Fin_false_inv (r : R) (z : Z) :
  float_is (Fin r) z = false -> r <> IZR z.
Proof.
  unfold float_is, FVal.eqb, of_Z.
  destruct (Req_dec_T r (IZR z)); [discriminate | auto].
Qed.

Lemma sumR_positive (x : list R) : positive x -> x <> [] -> 0 < sumR x.
Proof.
  intros Hx N. destruct Hx as [|r x Hr Hx]; [congruence|].
  simpl. assert (0 <= sumR x).
  { apply sumR_nonneg. revert Hx. apply Forall_impl. intros s; lra. }
  lra.
Qed.

Lemma probability_nonempty (x : list R) : probability x -> x <> [].
Proof.
  intros [_ S] ->. simpl in S. lra.
Qed.

(** The sum over one sentence of p ** a * p ** b. *)
Lemma power_product_row (a b : R) (x : list R) :
  positive x ->
  vsum (map2 FVal.mul (map (fun v => FVal.pow v (Fin a)) (lift1 x))
          (map (fun v => FVal.pow v (Fin b)) (lift1 x))) =
  Fin (sumR (map (fun r => Rpower r (a + b)) x)).
Proof.
  intros Hx. rewrite <- vsum_lift. f_equal.
  unfold lift1. rewrite !map_map, map2_same.
  apply (map_ext_Forall _ _ Hx). intros r Hr.
  rewrite !pow_positive by exact Hr. cbn [FVal.mul].
  apply Fin_eq. symmetry. apply Rpower_plus.
Qed.

Lemma power_row (a : R) (x : list R) :
  positive x ->
  vsum (map (fun v => FVal.pow v (Fin a)) (lift1 x)) =
  Fin (sumR (map (fun r => Rpower r a) x)).
Proof.
  intros Hx. rewrite <- vsum_lift. f_equal.
  unfold lift1. rewrite !map_map.
  apply (map_ext_Forall _ _ Hx). intros r Hr. now apply pow_positive.
Qed.




Lemma ab_self (a b : R) (kind : _IMEnum) (p : list (list R)) :
  a <> 0 -> b <> 0 -> a + b <> 0 ->
  Forall probability p -> Forall positive p ->
  Measure._calculate_ab_divergence
    (Build_IM kind (PyFloat (Fin a)) (PyFloat (Fin b))) (lift2 p) (lift2 p) =
  inr (lift1 (map (ab_self_formula a b) p)).
Proof.
  intros A0 B0 S0 Hp Pp.
  cbv [Measure._calculate_ab_divergence bind ret as_float alpha beta].
  apply f_equal. unfold sum_last, ewise1, ewise2, lift2, lift1.
  rewrite !map_map, !map2_same, !map_map, !map2_same.
  rewrite Forall_forall in Hp, Pp. apply map_ext_in. intros x Hx.
  fold (lift1 x). cbn [FVal.add FVal.mul].
  rewrite power_product_row, power_row by (apply Pp, Hx).
  replace (sumR (map (fun r => Rpower r (b + a)) x))
    with (sumR (map (fun r => Rpower r (a + b)) x))
    by (now rewrite (Rplus_comm a b)).
  assert (P : 0 < sumR (map (fun r => Rpower r (a + b)) x)).
  { apply sumR_positive.
    - apply Forall_map. generalize (Pp x Hx). apply Forall_impl.
      intros r _. unfold Rpower. apply exp_pos.
    - intros E. apply map_eq_nil in E.
      now apply (probability_nonempty (Hp x Hx)). }
  cbn [FVal.log]. rewrite Rsign_pos by exact P.
  rewrite !div_nonzero by nra.
  cbn [FVal.sub FVal.neg FVal.add]. apply Fin_eq.
  unfold ab_self_formula. field. repeat split; lra.
Qed.


(** X12: for a constructed AB divergence with finite alpha and beta, a batch
    of strictly positive probability distributions paired with itself scores,
    for every sentence, ln (sum p ** (alpha + beta)) * (alpha - 1) /
    (alpha * (alpha + beta)); the instance is left as it was. *)
Theorem ab_divergence_on_identical
  (name : string) (a b : R) (im : _InformationMeasure) (p : list (list R)) :
  IM.__init__ name (PyFloat (Fin a)) (PyFloat (Fin b)) = inr im ->
  information_measure im = AB_DIVERGENCE ->
  Forall probability p -> Forall positive p ->
  Measure.__call__ im (lift2 p) (lift2 p) =
  (inr (lift1 (map (ab_self_formula a b) p)), im).
Proof.
  intros H K Hp Pp.
  pose proof (init_valid _ _ _ H) as V.
  destruct (init_inv _ _ _ H) as (_ & Ha & Hb).
  rewrite call_dispatch.
  destruct im as [kind al be]; cbn [information_measure alpha beta] in *.
  subst al be kind. cbn [valid_parameters] in V.
  destruct V as (f & g & E & E' & F0 & G0 & S0).
  injection E as <-. injection E' as <-.
  unfold method_of, Measure.reading. f_equal.
  apply ab_self; try assumption.
  - exact (@float_is_Fin_false_inv _ _ F0).
  - exact (@float_is_Fin_false_inv _ _ G0).
  - exact (@float_is_Fin_false_inv _ _ S0).
Qed.


Lemma uniform_pair :
  Forall probability [[1 / 2; 1 / 2]] /\ Forall positive [[1 / 2; 1 / 2]].
Proof.
  split; repeat constructor; simpl; lra.
Defined.


Lemma ab_two_one_constructed :
  IM.__init__ "ab_divergence" (PyFloat (Fin 2)) (PyFloat (Fin 1)) =
  inr (Build_IM AB_DIVERGENCE (PyFloat (Fin 2)) (PyFloat (Fin 1))).
Proof.
  assert (Hk : IMEnum.from_str "ab_divergence" = inr AB_DIVERGENCE)
    by reflexivity.
  init_eval Hk.
  fold (float_is (Fin 2) 0) (float_is (Fin 1) 0)
    (float_is (FVal.add (Fin 2) (Fin 1)) 0). cbn [FVal.add].
  rewrite !float_is_Fin_false; [reflexivity | | |]; simpl; lra.
Qed.


Lemma ab_divergence_on_identical_witness :
  Measure.__call__
    (Build_IM AB_DIVERGENCE (PyFloat (Fin 2)) (PyFloat (Fin 1)))
    (lift2 [[1 / 2; 1 / 2]]) (lift2 [[1 / 2; 1 / 2]]) =
  (inr (lift1 (map (ab_self_formula 2 1) [[1 / 2; 1 / 2]])),
   Build_IM AB_DIVERGENCE (PyFloat (Fin 2)) (PyFloat (Fin 1))).
Proof.
  destruct uniform_pair as [Hp Pp].
  exact (@ab_divergence_on_identical "ab_divergence" 2 1 _ _
           ab_two_one_constructed eq_refl Hp Pp).
Defined.


End MeasureMore.

(** ** More on the aggregator *)

Module AggregatorMore.

Import FValFacts TorchFacts AggregatorFacts.

Local Open Scope R_scope.

(** *** Sums *)

Lemma sumR_map_plus {A} (f g : A -> R) (l : list A) :
  sumR (map (fun i => f i + g i) l) = sumR (map f l) + sumR (map g l).
Proof.
  induction l as [|i l IH]; simpl; [lra | rewrite IH; lra].
Qed.

Lemma sumR_map_scale {A} (f : A -> R) (c : R) (l : list A) :
  sumR (map (fun i => f i * c) l) = sumR (map f l) * c.
Proof.
  induction l as [|i l IH]; simpl; [lra | rewrite IH; lra].
Qed.

Lemma sumR_by_index (d : list R) :
  sumR (map (fun i => nth i d 0) (seq 0 (List.length d))) = sumR d.
Proof.
  now rewrite <- (list_by_index 0 d).
Qed.

Lemma Forall_map2_any {A B C} (P : A -> Prop) (T : C -> Prop)
  (f : A -> B -> C) (x : list A) (y : list B) :
  Forall P x -> (forall a b, P a -> T (f a b)) -> Forall T (map2 f x y).
Proof.
  intros Hx F. revert y.
  induction Hx as [|a x Pa _ IH]; intros [|b y]; simpl; constructor.
  - now apply F.
  - apply IH.
Qed.

(** *** The softmax of finite logits *)

Lemma softmax_probability (xs : list R) :
  xs <> [] ->
  probability
    (map (fun x => Rtrigo_def.exp x / sumR (map Rtrigo_def.exp xs)) xs).
Proof.
  intros N. pose proof (sumR_exp_pos N) as P. split.
  - apply Forall_map, Forall_forall. intros x _.
    apply Rlt_le, Rdiv_lt_0_compat; [apply exp_pos | exact P].
  - unfold Rdiv.
    rewrite (sumR_map_scale Rtrigo_def.exp (/ sumR (map Rtrigo_def.exp xs))).
    field. lra.
Qed.

(** *** The masked mean of probability distributions *)

Section Mean.
Variable v : nat.

Lemma masked_total (ds : list (list R)) (m : list bool) :
  List.length m = List.length ds ->
  Forall (fun d => List.length d = v /\ probability d) ds ->
  sumR (map (fun i => sumR (map2 (fun d mk => nth i d 0 * b2r mk) ds m))
          (seq 0 v)) =
  IZR (Aggregator.count_true m).
Proof.
  intros L F. revert m L.
  induction F as [|d ds [Ld [_ Sd]] _ IH]; intros m L.
  - destruct m; [|discriminate L]. simpl.
    apply sumR_zero, Forall_map, Forall_forall. reflexivity.
  - destruct m as [|mk m]; [discriminate L|].
    simpl in L. injection L as L.
    cbn [map2 sumR fold_right Aggregator.count_true].
    fold (Aggregator.count_true m).
    change (fun i => nth i d 0 * b2r mk +
                     fold_right Rplus 0
                       (map2 (fun d0 mk0 => nth i d0 0 * b2r mk0) ds m))
      with (fun i => (fun i => nth i d 0 * b2r mk) i +
                     (fun i => sumR
                        (map2 (fun d0 mk0 => nth i d0 0 * b2r mk0) ds m)) i).
    rewrite sumR_map_plus, (IH m L), sumR_map_scale.
    rewrite <- Ld, sumR_by_index, Sd, plus_IZR.
    unfold b2r. destruct mk; simpl; lra.
Qed.

Lemma masked_mean_probability (ds : list (list R)) (m : list bool) :
  List.length m = List.length ds ->
  Forall (fun d => List.length d = v /\ probability d) ds ->
  Aggregator.count_true m <> 0%Z ->
  probability (masked_mean v ds m).
Proof.
  intros L F C.
  assert (P : 0 < IZR (Aggregator.count_true m)).
  { apply IZR_lt. pose proof (count_true_nonneg m). lia. }
  unfold masked_mean. split.
  - apply Forall_map, Forall_forall. intros i _.
    apply Rmult_le_pos; [|left; now apply Rinv_0_lt_compat].
    apply sumR_nonneg. unfold nonneg.
    apply (@Forall_map2_any _ _ _ _ (fun r => 0 <= r) _ ds m F).
    intros d mk [Ld [Nd _]].
    apply Rmult_le_pos; [|unfold b2r; destruct mk; lra].
    destruct (Nat.lt_ge_cases i (List.length d)) as [Hi|Hi].
    + unfold nonneg in Nd. rewrite Forall_forall in Nd.
      apply Nd, nth_In, Hi.
    + rewrite nth_overflow by exact Hi. lra.
  - unfold Rdiv.
    rewrite (sumR_map_scale
               (fun i => sumR (map2 (fun d mk => nth i d 0 * b2r mk) ds m))
               (/ IZR (Aggregator.count_true m))).
    rewrite (@masked_total ds m L F). field. lra.
Qed.
End Mean.

(** *** The sentences of a batch *)

Section Sentences.
Variable model : language_model.
Variable data : batch.
Variable t : R.
Variable idf : bool.
Variable tokens : special_tokens.
Variables size seq_len vocab : nat.

Hypothesis ids_shape : rectangular (input_ids data) size seq_len.
Hypothesis model_finite :
  forall ids, rectangular ids size seq_len ->
  finite_logits (model ids (attention_mask data)) size seq_len vocab.
Hypothesis some_sentence : (0 < size)%nat.
Hypothesis some_position : (0 < seq_len)%nat.
Hypothesis some_token : (0 < vocab)%nat.
Hypothesis temperature_nonzero : t <> 0.

(** The distribution of position [s] of sentence [b] is a probability
    distribution over the vocabulary. *)
Lemma dist_row_probability (b s : nat) :
  (b < size)%nat -> (s < seq_len)%nat ->
  exists ps,
    nth b (Aggregator.position_distribution model data (Fin t) tokens s) []
    = lift1 ps
    /\ List.length ps = vocab /\ probability ps.
Proof.
  intros Hb Hs.
  destruct (model_finite
              (set_column_rectangular s (mask_token_id tokens) ids_shape))
    as [L F].
  unfold Aggregator.position_distribution, Aggregator.softmax,
    ewise1, Aggregator.select_dim1.
  set (logits := model _ _) in *.
  rewrite !map_map.
  rewrite (nth_indep _ []
             ((fun row => Aggregator.softmax_row
                 (map (fun v => FVal.div v (Fin t)) (nth s row [])))
                []))
    by (rewrite length_map; lia).
  rewrite (map_nth (fun row => Aggregator.softmax_row
                 (map (fun v => FVal.div v (Fin t)) (nth s row [])))).
  assert (Hrow : In (nth b logits []) logits) by (apply nth_In; lia).
  destruct (proj1 (Forall_forall _ _) F _ Hrow) as [Ls Fs].
  assert (Hd : In (nth s (nth b logits []) []) (nth b logits []))
    by (apply nth_In; lia).
  destruct (proj1 (Forall_forall _ _) Fs _ Hd) as [Lv Fv].
  rewrite (finite_lift Fv).
  set (ls := map to_R (nth s (nth b logits []) [])).
  assert (Lls : List.length ls = vocab)
    by (unfold ls; now rewrite length_map).
  replace (map (fun v => FVal.div v (Fin t)) (lift1 ls))
    with (lift1 (map (fun x => x / t) ls)).
  2:{ unfold lift1. rewrite !map_map. apply map_ext. intros x.
      symmetry. now apply div_nonzero. }
  assert (N : map (fun x => x / t) ls <> []).
  { intros E. apply (f_equal (@List.length R)) in E.
    rewrite length_map in E. simpl in E. lia. }
  rewrite (softmax_row_lift N).
  eexists. split; [reflexivity|]. split.
  - now rewrite !length_map.
  - now apply softmax_probability.
Qed.


End Sentences.


(** Every sentence of a batch with content is given a probability
    distribution. *)
Lemma content_batch_distribution (model : language_model) (data : batch)
  (t : R) (idf : bool) (tokens : special_tokens) (vocab : nat) :
  content_batch model data tokens vocab -> (0 < vocab)%nat -> t <> 0 ->
  exists ps,
    Aggregator._get_batch_distribution model data (Fin t) idf tokens =
    inr (lift2 ps)
    /\ Forall probability ps
    /\ List.length ps = List.length (input_ids data).
Proof.
  intros (size & seq_len & Hids & Hsize & Hseq & Hmodel & Hmask) Hv Ht.
  destruct (@batch_distribution_rows model data t idf tokens size seq_len
              vocab Hids Hmodel Hseq Hv Ht Hsize) as (out & E & L & rows).
  set (mean := fun b =>
         masked_mean vocab
           (map (fun s =>
                   map to_R
                     (nth b (Aggregator.position_distribution model data
                               (Fin t) tokens s) []))
              (seq 0 seq_len))
           (nth b (batch_token_mask data tokens) [])).
  exists (map mean (seq 0 size)). split; [|split].
  3:{ rewrite length_map, length_seq. symmetry. exact (proj1 Hids). }
  - rewrite E. f_equal. rewrite (list_by_index [] out), L.
    unfold lift2. rewrite map_map. apply map_ext_in.
    intros b Hb. apply in_seq in Hb.
    apply (proj2 (rows b ltac:(lia))). apply Hmask. lia.
  - apply Forall_map, Forall_forall. intros b Hb. apply in_seq in Hb.
    assert (Lm : List.length (nth b (batch_token_mask data tokens) []) =
                 seq_len).
    { apply (@token_mask_row_length data tokens size seq_len vocab);
        try assumption. lia. }
    apply masked_mean_probability.
    + now rewrite Lm, length_map, length_seq.
    + apply Forall_map, Forall_forall. intros s Hs. apply in_seq in Hs.
      destruct (@dist_row_probability model data t tokens size seq_len vocab
                  Hids Hmodel Hsize Hseq Hv Ht b s) as (ps & Eq & Lp & Pp);
        [lia | lia |].
      rewrite Eq, to_R_lift. split; assumption.
    + apply Hmask. lia.
Qed.

End AggregatorMore.

(** ** The distribution of a corpus and the score *)

Module CorpusFacts.

Import FValFacts TorchFacts CallFacts AggregatorFacts AggregatorMore.

Local Open Scope R_scope.

Section Loader.
Variable progress_bar : Corpus.dataloader -> bool -> Corpus.dataloader.
Variable collate : batch -> batch.
Variable model : language_model.
Variable temperature : fval.
Variable tokens : special_tokens.

(** The loop succeeds exactly when every batch does, and then returns the
    distributions of the batches in order. *)
Lemma batch_distributions_all (idf : bool) (batches : Corpus.dataloader)
  (ds : list tensor2) :
  Corpus.batch_distributions collate model batches temperature idf tokens =
    inr ds <->
  Forall2 (fun data d =>
             Aggregator._get_batch_distribution model (collate data)
               temperature idf tokens = inr d)
    batches ds.
Proof.
  revert ds. induction batches as [|data batches IH]; intros ds; simpl.
  - split.
    + intros E. injection E as <-. constructor.
    + intros F. inversion F. reflexivity.
  - unfold bind, ret.
    destruct (Aggregator._get_batch_distribution model (collate data)
                temperature idf tokens) as [e|d] eqn:Ed.
    + split; [discriminate|].
      intros F. inversion F as [|? d' ? ds' Hd Hr]; subst. congruence.
    + destruct (Corpus.batch_distributions collate model batches temperature
                  idf tokens) as [e|rest] eqn:Er.
      * split; [discriminate|]. intros F. inversion F as [|? d' ? ds' Hd Hr];
          subst. apply IH in Hr. discriminate Hr.
      * split.
        -- intros E. injection E as <-. constructor; [exact Ed|].
           now apply IH.
        -- intros F. inversion F as [|? d' ? ds' Hd Hr]; subst.
           apply IH in Hr. congruence.
Qed.

(** X15: the distribution of a corpus is returned exactly when the progress
    bar over the loader yields at least one batch and the aggregator succeeds
    on every collated batch; it is then the distributions of the batches one
    after the other, in the order they are yielded. *)
Theorem data_distribution_concatenates
  (idf verbose : bool) (loader : Corpus.dataloader) (out : tensor2) :
  Corpus._get_data_distribution progress_bar collate model loader temperature
    idf tokens verbose = inr out <->
  progress_bar loader verbose <> []
  /\ exists ds,
       Forall2 (fun data d =>
                  Aggregator._get_batch_distribution model (collate data)
                    temperature idf tokens = inr d)
         (progress_bar loader verbose) ds
       /\ out = List.concat ds.
Proof.
  unfold Corpus._get_data_distribution, bind.
  generalize (progress_bar loader verbose). intros batches. split.
  - destruct (Corpus.batch_distributions collate model batches temperature
                idf tokens) as [e|ds] eqn:Ed; [discriminate|].
    apply batch_distributions_all in Ed.
    destruct ds as [|d ds]; [discriminate|].
    intros E. injection E as <-. split.
    + intros ->. inversion Ed.
    + exists (d :: ds). split; [exact Ed | reflexivity].
  - intros (N & ds & F & ->).
    rewrite (proj2 (batch_distributions_all idf batches ds) F).
    destruct ds as [|d ds]; [|reflexivity].
    inversion F; subst. congruence.
Qed.

End Loader.

(** The L1, L2 and L-infinity distances of a batch of finite entries to
    itself: every difference is zero. *)
Lemma distance_self (im : _InformationMeasure) (p : list (list R)) :
  In (information_measure im)
    [L1_DISTANCE; L2_DISTANCE; L_INFINITY_DISTANCE] ->
  Measure.__call__ im (lift2 p) (lift2 p) = (inr (zeros p), im).
Proof.
  intros K. rewrite call_dispatch.
  destruct K as [<-|[<-|[<-|[]]]]; unfold method_of, Measure.static, ret;
    do 2 f_equal.
  - unfold Measure._calculate_l1_distance.
    rewrite (norm_sub_self _ p vnorm1_zero). apply MeasureFacts.zeros_lift2.
  - unfold Measure._calculate_l2_distance.
    rewrite (norm_sub_self _ p vnorm2_zero). apply MeasureFacts.zeros_lift2.
  - unfold Measure._calculate_l_infinity_distance.
    rewrite (norm_sub_self _ p vnorm_inf_zero).
    apply MeasureFacts.zeros_lift2.
Qed.

Section Scoring.
Variable progress_bar : Corpus.dataloader -> bool -> Corpus.dataloader.
Variable collate : batch -> batch.
Variable model : language_model.
Variable t : R.
Variable tokens : special_tokens.
Variable vocab : nat.
Hypothesis some_token : (0 < vocab)%nat.
Hypothesis temperature_nonzero : t <> 0.

(** The distribution of a corpus whose batches all have content. *)
Lemma content_corpus_distribution (idf verbose : bool)
  (loader : Corpus.dataloader) :
  progress_bar loader verbose <> [] ->
  Forall (fun data => content_batch model (collate data) tokens vocab)
    (progress_bar loader verbose) ->
  exists ps,
    Corpus._get_data_distribution progress_bar collate model loader (Fin t)
      idf tokens verbose = inr (lift2 ps)
    /\ Forall probability ps
    /\ List.length ps =
       List.length
         (List.concat
            (map (fun d => input_ids (collate d))
               (progress_bar loader verbose))).
Proof.
  unfold Corpus._get_data_distribution.
  generalize (progress_bar loader verbose). intros batches N F.
  assert (G : exists pss,
             Corpus.batch_distributions collate model batches (Fin t) idf
               tokens = inr (map lift2 pss)
             /\ Forall (Forall probability) pss
             /\ List.length (List.concat pss) =
                List.length
                  (List.concat (map (fun d => input_ids (collate d)) batches))
             /\ List.length pss = List.length batches).
  { clear N. induction F as [|data batches Hd _ (pss & E & P & L & Ll)].
    - exists []. repeat split; constructor.
    - destruct (@content_batch_distribution model (collate data) t idf tokens
                  vocab Hd some_token temperature_nonzero)
        as (ps & Ep & Pp & Lp).
      exists (ps :: pss). simpl. rewrite Ep, E. unfold bind, ret.
      split; [reflexivity|]. split; [now constructor|].
      split; [|now rewrite Ll]. rewrite !length_app. now rewrite Lp, L. }
  destruct G as (pss & E & P & L & Ll).
  exists (List.concat pss). split; [|split].
  - rewrite E. unfold bind.
    destruct pss as [|ps pss].
    + destruct batches; [congruence | discriminate Ll].
    + unfold Corpus.cat_dim0, ret. cbn [map]. f_equal.
      unfold lift2. rewrite concat_map. reflexivity.
  - apply Forall_concat. exact P.
  - exact L.
Qed.

(** X16: when the progress bar over a loader yields at least one batch,
    every collated batch has content (a matrix of token ids, finite logits of
    its shape, a true position in every row of the token mask) and the
    temperature is a non-zero finite number, scoring the corpus against
    itself with the L1, L2 or L-infinity distance returns one score per
    sentence, every score is 0, and the instance is left as it was. *)
Theorem corpus_against_itself_scores_zero (idf verbose : bool)
  (loader : Corpus.dataloader) (im : _InformationMeasure) :
  progress_bar loader verbose <> [] ->
  Forall (fun data => content_batch model (collate data) tokens vocab)
    (progress_bar loader verbose) ->
  In (information_measure im)
    [L1_DISTANCE; L2_DISTANCE; L_INFINITY_DISTANCE] ->
  exists scores,
    Corpus._infolm_compute progress_bar collate model loader loader (Fin t)
      idf im tokens verbose = (inr scores, im)
    /\ Forall (fun s => s = Fin 0) scores
    /\ List.length scores =
       List.length
         (List.concat
            (map (fun d => input_ids (collate d))
               (progress_bar loader verbose))).
Proof.
  intros N F K.
  destruct (content_corpus_distribution idf N F) as (ps & E & P & L).
  exists (zeros ps). unfold Corpus._infolm_compute. rewrite E.
  split; [now apply distance_self|]. split.
  - unfold zeros. apply Forall_map, Forall_forall. reflexivity.
  - unfold zeros. now rewrite length_map.
Qed.

End Scoring.

Lemma cls_sentences_content :
  content_batch flat_model cls_sentences bert_tokens 2.
Proof.
  exists 2%nat, 2%nat.
  split; [split; [reflexivity | repeat constructor]|].
  split; [lia|]. split; [lia|]. split.
  - intros ids. apply flat_model_finite.
  - intros [|[|b]] Hb; [discriminate | discriminate | lia].
Defined.

Lemma corpus_against_itself_scores_zero_witness :
  exists scores,
    Corpus._infolm_compute (fun loader _ => loader) (fun data => data)
      flat_model [cls_sentences] [cls_sentences] (Fin 1) true
      (Build_IM L1_DISTANCE PyNone PyNone) bert_tokens true =
    (inr scores, Build_IM L1_DISTANCE PyNone PyNone)
    /\ Forall (fun s => s = Fin 0) scores.
Proof.
  destruct (@corpus_against_itself_scores_zero (fun loader _ => loader)
              (fun data => data) flat_model 1 bert_tokens 2 ltac:(lia)
              R1_neq_R0 true true [cls_sentences]
              (Build_IM L1_DISTANCE PyNone PyNone))
    as (scores & E & Z & _).
  - discriminate.
  - constructor; [exact cls_sentences_content | constructor].
  - simpl. auto.
  - exists scores. split; [exact E | exact Z].
Defined.

End CorpusFacts.

(** ** Rounding to float32 *)

Module Float32Facts.

Import FValFacts.

Import Rounded.

Local Open Scope R_scope.




























End Float32Facts.

(** ** The measures of a batch paired with itself, with rounding *)

Module RoundedFacts.

Import FValFacts TorchFacts Rounded Float32Facts.

Local Open Scope R_scope.



(** Any rounding that leaves 0 and 1 as they are. *)
Section AnyRounding.

Variable round : fval -> fval.
Hypothesis round_zero : round (Fin 0) = Fin 0.
Hypothesis round_one : round (Fin 1) = Fin 1.









End AnyRounding.












End RoundedFacts.
